(** * Flight booking canister (src/src/index.ts)

    Shallow embedding of the booking store.  The [StableBTreeMap] is an
    association list ordered by key (Azle keeps the entries ordered by key,
    and [values()] returns them in that order); [ic.time()] and the random
    bytes from which [uuidv4()] builds an identifier are inputs supplied by
    the environment of each update call.  Candid [nat64] values are [Z]
    (inside [0, 2^64)); the JS [number] arguments of the pagination query
    are integers [Z]; strings are [String.string] holding the UTF-8 bytes
    of Candid [text]. *)

From Stdlib Require Import String Ascii List ZArith Lia Bool.
From Stdlib Require Import Sorting.Sorted.
Import ListNotations.
Local Open Scope Z_scope.

(** ** Types *)

Definition nat64 := Z.

(** [type FlightBooking = Record<{...}>] *)
Record FlightBooking := mkFlightBooking {
  id : string;
  airline : string;
  departureAirport : string;
  arrivalAirport : string;
  departureTime : nat64;
  arrivalTime : nat64;
  createdAt : nat64;
  updatedAt : option nat64
}.

(** [type FlightBookingPayload = Record<{...}>] *)
Module Payload.
Record FlightBookingPayload := mkPayload {
  airline : string;
  departureAirport : string;
  arrivalAirport : string;
  departureTime : nat64;
  arrivalTime : nat64
}.
End Payload.
Import Payload (FlightBookingPayload, mkPayload).

(** Azle's [Result<T, E>]. *)
Inductive Result (T E : Type) : Type :=
| Ok (v : T)
| Err (e : E).
Arguments Ok {T E} v.
Arguments Err {T E} e.

(** ** The stable map *)

(** Entries [(key, value)] in key order. *)
Definition StableBTreeMap := list (string * FlightBooking).

Definition key_lt (a b : string) : Prop := String.compare a b = Lt.

Definition keys (m : StableBTreeMap) : list string := map fst m.

(** [map.get(key)] *)
Fixpoint map_get (k : string) (m : StableBTreeMap) : option FlightBooking :=
  match m with
  | [] => None
  | (k', v) :: m' => if String.eqb k k' then Some v else map_get k m'
  end.

(** [map.insert(key, value)]: overwrite the entry of [key] or put a new
    one at its place in key order. *)
Fixpoint map_insert (k : string) (v : FlightBooking) (m : StableBTreeMap)
  : StableBTreeMap :=
  match m with
  | [] => [(k, v)]
  | (k', v') :: m' =>
      match String.compare k k' with
      | Eq => (k, v) :: m'
      | Lt => (k, v) :: m
      | Gt => (k', v') :: map_insert k v m'
      end
  end.

(** [map.remove(key)]: the removed value, if any, and the new map. *)
Fixpoint map_remove (k : string) (m : StableBTreeMap)
  : option FlightBooking * StableBTreeMap :=
  match m with
  | [] => (None, [])
  | (k', v') :: m' =>
      if String.eqb k k' then (Some v', m')
      else let (r, m'') := map_remove k m' in (r, (k', v') :: m'')
  end.

(** [map.values()] *)
Definition map_values (m : StableBTreeMap) : list FlightBooking := map snd m.

(** [map.len()] *)
Definition map_len (m : StableBTreeMap) : nat := length m.

(** ** JavaScript built-ins used by the code *)

(** [!s] for a string: the empty string is falsy. *)
Definition falsy_string (s : string) : bool := String.eqb s EmptyString.

(** [!n] for a [nat64] (a bigint): [0n] is falsy. *)
Definition falsy_nat64 (n : nat64) : bool := Z.eqb n 0.

(** *** Text

    Canister strings are Candid [text], which is valid UTF-8; a [string]
    here is that UTF-8 byte sequence.  For valid text, one UTF-8 string
    occurs in another exactly when the UTF-16 strings JavaScript works on
    do, so [includes] below compares bytes. *)

Definition bytes_of_string (s : string) : list Z :=
  map (fun a => Z.of_nat (nat_of_ascii a)) (list_ascii_of_string s).

Definition string_of_bytes (l : list Z) : string :=
  string_of_list_ascii (map (fun b => ascii_of_nat (Z.to_nat b)) l).

(** UTF-8 encoding of one code point. *)
Definition utf8_encode (c : Z) : list Z :=
  if c <? 0x80 then [c]
  else if c <? 0x800 then [0xC0 + c / 64; 0x80 + c mod 64]
  else if c <? 0x10000 then [0xE0 + c / 4096; 0x80 + (c / 64) mod 64; 0x80 + c mod 64]
  else [0xF0 + c / 262144; 0x80 + (c / 4096) mod 64; 0x80 + (c / 64) mod 64;
        0x80 + c mod 64].

Definition utf8_cont (b : Z) : bool := (0x80 <=? b) && (b <=? 0xBF).

(** Strict UTF-8 decoding: shortest forms only, no surrogates, nothing
    above [0x10FFFF]. *)
Fixpoint utf8_decode (l : list Z) : option (list Z) :=
  match l with
  | [] => Some []
  | b0 :: r =>
      if b0 <? 0x80 then option_map (cons b0) (utf8_decode r)
      else if (0xC2 <=? b0) && (b0 <=? 0xDF) then
        match r with
        | b1 :: r1 =>
            if utf8_cont b1
            then option_map (cons ((b0 - 0xC0) * 64 + (b1 - 0x80))) (utf8_decode r1)
            else None
        | [] => None
        end
      else if (0xE0 <=? b0) && (b0 <=? 0xEF) then
        match r with
        | b1 :: b2 :: r2 =>
            let c := (b0 - 0xE0) * 4096 + (b1 - 0x80) * 64 + (b2 - 0x80) in
            if utf8_cont b1 && utf8_cont b2 && (0x800 <=? c)
               && negb ((0xD800 <=? c) && (c <=? 0xDFFF))
            then option_map (cons c) (utf8_decode r2) else None
        | _ => None
        end
      else if (0xF0 <=? b0) && (b0 <=? 0xF4) then
        match r with
        | b1 :: b2 :: b3 :: r3 =>
            let c := (b0 - 0xF0) * 262144 + (b1 - 0x80) * 4096 + (b2 - 0x80) * 64
                     + (b3 - 0x80) in
            if utf8_cont b1 && utf8_cont b2 && utf8_cont b3 && (0x10000 <=? c)
               && (c <=? 0x10FFFF)
            then option_map (cons c) (utf8_decode r3) else None
        | _ => None
        end
      else None
  end.

(** *** [String.prototype.toLowerCase]

    Unicode default case conversion (Unicode 14.0 data): every code point
    takes its full lowercase mapping, and CAPITAL SIGMA (U+03A3) becomes
    the final form U+03C2 when it ends a word (Final_Sigma): after
    skipping case-ignorable code points, a cased one precedes it and none
    follows it.  The skip treats a code point that is both cased and
    case-ignorable as ignorable, as ICU, QuickJS and Rust's
    [to_lowercase] do. *)

(** [(lo, hi, step, delta)]: the code points [lo, lo + step, ..., hi]
    lower-case to [c + delta]. *)

Definition lower_ranges : list (Z * Z * Z * Z) := [
  (0x41, 0x5A, 1, 0x20); (0xC0, 0xD6, 1, 0x20); (0xD8, 0xDE, 1, 0x20);
  (0x100, 0x12E, 2, 0x1); (0x132, 0x136, 2, 0x1); (0x139, 0x147, 2, 0x1);
  (0x14A, 0x176, 2, 0x1); (0x178, 0x178, 1, (-0x79)); (0x179, 0x17D, 2, 0x1);
  (0x181, 0x181, 1, 0xD2); (0x182, 0x184, 2, 0x1); (0x186, 0x186, 1, 0xCE);
  (0x187, 0x187, 1, 0x1); (0x189, 0x18A, 1, 0xCD); (0x18B, 0x18B, 1, 0x1);
  (0x18E, 0x18E, 1, 0x4F); (0x18F, 0x18F, 1, 0xCA); (0x190, 0x190, 1, 0xCB);
  (0x191, 0x191, 1, 0x1); (0x193, 0x193, 1, 0xCD); (0x194, 0x194, 1, 0xCF);
  (0x196, 0x196, 1, 0xD3); (0x197, 0x197, 1, 0xD1); (0x198, 0x198, 1, 0x1);
  (0x19C, 0x19C, 1, 0xD3); (0x19D, 0x19D, 1, 0xD5); (0x19F, 0x19F, 1, 0xD6);
  (0x1A0, 0x1A4, 2, 0x1); (0x1A6, 0x1A6, 1, 0xDA); (0x1A7, 0x1A7, 1, 0x1);
  (0x1A9, 0x1A9, 1, 0xDA); (0x1AC, 0x1AC, 1, 0x1); (0x1AE, 0x1AE, 1, 0xDA);
  (0x1AF, 0x1AF, 1, 0x1); (0x1B1, 0x1B2, 1, 0xD9); (0x1B3, 0x1B5, 2, 0x1);
  (0x1B7, 0x1B7, 1, 0xDB); (0x1B8, 0x1B8, 1, 0x1); (0x1BC, 0x1BC, 1, 0x1);
  (0x1C4, 0x1C4, 1, 0x2); (0x1C5, 0x1C5, 1, 0x1); (0x1C7, 0x1C7, 1, 0x2);
  (0x1C8, 0x1C8, 1, 0x1); (0x1CA, 0x1CA, 1, 0x2); (0x1CB, 0x1DB, 2, 0x1);
  (0x1DE, 0x1EE, 2, 0x1); (0x1F1, 0x1F1, 1, 0x2); (0x1F2, 0x1F4, 2, 0x1);
  (0x1F6, 0x1F6, 1, (-0x61)); (0x1F7, 0x1F7, 1, (-0x38)); (0x1F8, 0x21E, 2, 0x1);
  (0x220, 0x220, 1, (-0x82)); (0x222, 0x232, 2, 0x1); (0x23A, 0x23A, 1, 0x2A2B);
  (0x23B, 0x23B, 1, 0x1); (0x23D, 0x23D, 1, (-0xA3)); (0x23E, 0x23E, 1, 0x2A28);
  (0x241, 0x241, 1, 0x1); (0x243, 0x243, 1, (-0xC3)); (0x244, 0x244, 1, 0x45);
  (0x245, 0x245, 1, 0x47); (0x246, 0x24E, 2, 0x1); (0x370, 0x372, 2, 0x1);
  (0x376, 0x376, 1, 0x1); (0x37F, 0x37F, 1, 0x74); (0x386, 0x386, 1, 0x26);
  (0x388, 0x38A, 1, 0x25); (0x38C, 0x38C, 1, 0x40); (0x38E, 0x38F, 1, 0x3F);
  (0x391, 0x3A1, 1, 0x20); (0x3A4, 0x3AB, 1, 0x20); (0x3CF, 0x3CF, 1, 0x8);
  (0x3D8, 0x3EE, 2, 0x1); (0x3F4, 0x3F4, 1, (-0x3C)); (0x3F7, 0x3F7, 1, 0x1);
  (0x3F9, 0x3F9, 1, (-0x7)); (0x3FA, 0x3FA, 1, 0x1); (0x3FD, 0x3FF, 1, (-0x82));
  (0x400, 0x40F, 1, 0x50); (0x410, 0x42F, 1, 0x20); (0x460, 0x480, 2, 0x1);
  (0x48A, 0x4BE, 2, 0x1); (0x4C0, 0x4C0, 1, 0xF); (0x4C1, 0x4CD, 2, 0x1);
  (0x4D0, 0x52E, 2, 0x1); (0x531, 0x556, 1, 0x30); (0x10A0, 0x10C5, 1, 0x1C60);
  (0x10C7, 0x10C7, 1, 0x1C60); (0x10CD, 0x10CD, 1, 0x1C60); (0x13A0, 0x13EF, 1, 0x97D0);
  (0x13F0, 0x13F5, 1, 0x8); (0x1C90, 0x1CBA, 1, (-0xBC0)); (0x1CBD, 0x1CBF, 1, (-0xBC0));
  (0x1E00, 0x1E94, 2, 0x1); (0x1E9E, 0x1E9E, 1, (-0x1DBF)); (0x1EA0, 0x1EFE, 2, 0x1);
  (0x1F08, 0x1F0F, 1, (-0x8)); (0x1F18, 0x1F1D, 1, (-0x8)); (0x1F28, 0x1F2F, 1, (-0x8));
  (0x1F38, 0x1F3F, 1, (-0x8)); (0x1F48, 0x1F4D, 1, (-0x8)); (0x1F59, 0x1F5F, 2, (-0x8));
  (0x1F68, 0x1F6F, 1, (-0x8)); (0x1F88, 0x1F8F, 1, (-0x8)); (0x1F98, 0x1F9F, 1, (-0x8));
  (0x1FA8, 0x1FAF, 1, (-0x8)); (0x1FB8, 0x1FB9, 1, (-0x8)); (0x1FBA, 0x1FBB, 1, (-0x4A));
  (0x1FBC, 0x1FBC, 1, (-0x9)); (0x1FC8, 0x1FCB, 1, (-0x56)); (0x1FCC, 0x1FCC, 1, (-0x9));
  (0x1FD8, 0x1FD9, 1, (-0x8)); (0x1FDA, 0x1FDB, 1, (-0x64)); (0x1FE8, 0x1FE9, 1, (-0x8));
  (0x1FEA, 0x1FEB, 1, (-0x70)); (0x1FEC, 0x1FEC, 1, (-0x7)); (0x1FF8, 0x1FF9, 1, (-0x80));
  (0x1FFA, 0x1FFB, 1, (-0x7E)); (0x1FFC, 0x1FFC, 1, (-0x9)); (0x2126, 0x2126, 1, (-0x1D5D));
  (0x212A, 0x212A, 1, (-0x20BF)); (0x212B, 0x212B, 1, (-0x2046)); (0x2132, 0x2132, 1, 0x1C);
  (0x2160, 0x216F, 1, 0x10); (0x2183, 0x2183, 1, 0x1); (0x24B6, 0x24CF, 1, 0x1A);
  (0x2C00, 0x2C2F, 1, 0x30); (0x2C60, 0x2C60, 1, 0x1); (0x2C62, 0x2C62, 1, (-0x29F7));
  (0x2C63, 0x2C63, 1, (-0xEE6)); (0x2C64, 0x2C64, 1, (-0x29E7)); (0x2C67, 0x2C6B, 2, 0x1);
  (0x2C6D, 0x2C6D, 1, (-0x2A1C)); (0x2C6E, 0x2C6E, 1, (-0x29FD)); (0x2C6F, 0x2C6F, 1, (-0x2A1F));
  (0x2C70, 0x2C70, 1, (-0x2A1E)); (0x2C72, 0x2C72, 1, 0x1); (0x2C75, 0x2C75, 1, 0x1);
  (0x2C7E, 0x2C7F, 1, (-0x2A3F)); (0x2C80, 0x2CE2, 2, 0x1); (0x2CEB, 0x2CED, 2, 0x1);
  (0x2CF2, 0x2CF2, 1, 0x1); (0xA640, 0xA66C, 2, 0x1); (0xA680, 0xA69A, 2, 0x1);
  (0xA722, 0xA72E, 2, 0x1); (0xA732, 0xA76E, 2, 0x1); (0xA779, 0xA77B, 2, 0x1);
  (0xA77D, 0xA77D, 1, (-0x8A04)); (0xA77E, 0xA786, 2, 0x1); (0xA78B, 0xA78B, 1, 0x1);
  (0xA78D, 0xA78D, 1, (-0xA528)); (0xA790, 0xA792, 2, 0x1); (0xA796, 0xA7A8, 2, 0x1);
  (0xA7AA, 0xA7AA, 1, (-0xA544)); (0xA7AB, 0xA7AB, 1, (-0xA54F)); (0xA7AC, 0xA7AC, 1, (-0xA54B));
  (0xA7AD, 0xA7AD, 1, (-0xA541)); (0xA7AE, 0xA7AE, 1, (-0xA544)); (0xA7B0, 0xA7B0, 1, (-0xA512));
  (0xA7B1, 0xA7B1, 1, (-0xA52A)); (0xA7B2, 0xA7B2, 1, (-0xA515)); (0xA7B3, 0xA7B3, 1, 0x3A0);
  (0xA7B4, 0xA7C2, 2, 0x1); (0xA7C4, 0xA7C4, 1, (-0x30)); (0xA7C5, 0xA7C5, 1, (-0xA543));
  (0xA7C6, 0xA7C6, 1, (-0x8A38)); (0xA7C7, 0xA7C9, 2, 0x1); (0xA7D0, 0xA7D0, 1, 0x1);
  (0xA7D6, 0xA7D8, 2, 0x1); (0xA7F5, 0xA7F5, 1, 0x1); (0xFF21, 0xFF3A, 1, 0x20);
  (0x10400, 0x10427, 1, 0x28); (0x104B0, 0x104D3, 1, 0x28); (0x10570, 0x1057A, 1, 0x27);
  (0x1057C, 0x1058A, 1, 0x27); (0x1058C, 0x10592, 1, 0x27); (0x10594, 0x10595, 1, 0x27);
  (0x10C80, 0x10CB2, 1, 0x40); (0x118A0, 0x118BF, 1, 0x20); (0x16E40, 0x16E5F, 1, 0x20);
  (0x1E900, 0x1E921, 1, 0x22)
].

(** The [Cased] property, as ranges [(lo, hi)]. *)

Definition cased_ranges : list (Z * Z) := [
  (0x41, 0x5A); (0x61, 0x7A); (0xAA, 0xAA); (0xB5, 0xB5); (0xBA, 0xBA);
  (0xC0, 0xD6); (0xD8, 0xF6); (0xF8, 0x1BA); (0x1BC, 0x1BF); (0x1C4, 0x293);
  (0x295, 0x2B8); (0x2C0, 0x2C1); (0x2E0, 0x2E4); (0x345, 0x345); (0x370, 0x373);
  (0x376, 0x377); (0x37A, 0x37D); (0x37F, 0x37F); (0x386, 0x386); (0x388, 0x38A);
  (0x38C, 0x38C); (0x38E, 0x3A1); (0x3A3, 0x3F5); (0x3F7, 0x481); (0x48A, 0x52F);
  (0x531, 0x556); (0x560, 0x588); (0x10A0, 0x10C5); (0x10C7, 0x10C7); (0x10CD, 0x10CD);
  (0x10D0, 0x10FA); (0x10FD, 0x10FF); (0x13A0, 0x13F5); (0x13F8, 0x13FD); (0x1C80, 0x1C88);
  (0x1C90, 0x1CBA); (0x1CBD, 0x1CBF); (0x1D00, 0x1DBF); (0x1E00, 0x1F15); (0x1F18, 0x1F1D);
  (0x1F20, 0x1F45); (0x1F48, 0x1F4D); (0x1F50, 0x1F57); (0x1F59, 0x1F59); (0x1F5B, 0x1F5B);
  (0x1F5D, 0x1F5D); (0x1F5F, 0x1F7D); (0x1F80, 0x1FB4); (0x1FB6, 0x1FBC); (0x1FBE, 0x1FBE);
  (0x1FC2, 0x1FC4); (0x1FC6, 0x1FCC); (0x1FD0, 0x1FD3); (0x1FD6, 0x1FDB); (0x1FE0, 0x1FEC);
  (0x1FF2, 0x1FF4); (0x1FF6, 0x1FFC); (0x2071, 0x2071); (0x207F, 0x207F); (0x2090, 0x209C);
  (0x2102, 0x2102); (0x2107, 0x2107); (0x210A, 0x2113); (0x2115, 0x2115); (0x2119, 0x211D);
  (0x2124, 0x2124); (0x2126, 0x2126); (0x2128, 0x2128); (0x212A, 0x212D); (0x212F, 0x2134);
  (0x2139, 0x2139); (0x213C, 0x213F); (0x2145, 0x2149); (0x214E, 0x214E); (0x2160, 0x217F);
  (0x2183, 0x2184); (0x24B6, 0x24E9); (0x2C00, 0x2CE4); (0x2CEB, 0x2CEE); (0x2CF2, 0x2CF3);
  (0x2D00, 0x2D25); (0x2D27, 0x2D27); (0x2D2D, 0x2D2D); (0xA640, 0xA66D); (0xA680, 0xA69D);
  (0xA722, 0xA787); (0xA78B, 0xA78E); (0xA790, 0xA7CA); (0xA7D0, 0xA7D1); (0xA7D3, 0xA7D3);
  (0xA7D5, 0xA7D9); (0xA7F5, 0xA7F6); (0xA7F8, 0xA7FA); (0xAB30, 0xAB5A); (0xAB5C, 0xAB68);
  (0xAB70, 0xABBF); (0xFB00, 0xFB06); (0xFB13, 0xFB17); (0xFF21, 0xFF3A); (0xFF41, 0xFF5A);
  (0x10400, 0x1044F); (0x104B0, 0x104D3); (0x104D8, 0x104FB); (0x10570, 0x1057A); (0x1057C, 0x1058A);
  (0x1058C, 0x10592); (0x10594, 0x10595); (0x10597, 0x105A1); (0x105A3, 0x105B1); (0x105B3, 0x105B9);
  (0x105BB, 0x105BC); (0x10780, 0x10780); (0x10783, 0x10785); (0x10787, 0x107B0); (0x107B2, 0x107BA);
  (0x10C80, 0x10CB2); (0x10CC0, 0x10CF2); (0x118A0, 0x118DF); (0x16E40, 0x16E7F); (0x1D400, 0x1D454);
  (0x1D456, 0x1D49C); (0x1D49E, 0x1D49F); (0x1D4A2, 0x1D4A2); (0x1D4A5, 0x1D4A6); (0x1D4A9, 0x1D4AC);
  (0x1D4AE, 0x1D4B9); (0x1D4BB, 0x1D4BB); (0x1D4BD, 0x1D4C3); (0x1D4C5, 0x1D505); (0x1D507, 0x1D50A);
  (0x1D50D, 0x1D514); (0x1D516, 0x1D51C); (0x1D51E, 0x1D539); (0x1D53B, 0x1D53E); (0x1D540, 0x1D544);
  (0x1D546, 0x1D546); (0x1D54A, 0x1D550); (0x1D552, 0x1D6A5); (0x1D6A8, 0x1D6C0); (0x1D6C2, 0x1D6DA);
  (0x1D6DC, 0x1D6FA); (0x1D6FC, 0x1D714); (0x1D716, 0x1D734); (0x1D736, 0x1D74E); (0x1D750, 0x1D76E);
  (0x1D770, 0x1D788); (0x1D78A, 0x1D7A8); (0x1D7AA, 0x1D7C2); (0x1D7C4, 0x1D7CB); (0x1DF00, 0x1DF09);
  (0x1DF0B, 0x1DF1E); (0x1E900, 0x1E943); (0x1F130, 0x1F149); (0x1F150, 0x1F169); (0x1F170, 0x1F189)
].

(** The [Case_Ignorable] property, as ranges [(lo, hi)]. *)

Definition case_ignorable_ranges : list (Z * Z) := [
  (0x27, 0x27); (0x2E, 0x2E); (0x3A, 0x3A); (0x5E, 0x5E); (0x60, 0x60);
  (0xA8, 0xA8); (0xAD, 0xAD); (0xAF, 0xAF); (0xB4, 0xB4); (0xB7, 0xB8);
  (0x2B0, 0x36F); (0x374, 0x375); (0x37A, 0x37A); (0x384, 0x385); (0x387, 0x387);
  (0x483, 0x489); (0x559, 0x559); (0x55F, 0x55F); (0x591, 0x5BD); (0x5BF, 0x5BF);
  (0x5C1, 0x5C2); (0x5C4, 0x5C5); (0x5C7, 0x5C7); (0x5F4, 0x5F4); (0x600, 0x605);
  (0x610, 0x61A); (0x61C, 0x61C); (0x640, 0x640); (0x64B, 0x65F); (0x670, 0x670);
  (0x6D6, 0x6DD); (0x6DF, 0x6E8); (0x6EA, 0x6ED); (0x70F, 0x70F); (0x711, 0x711);
  (0x730, 0x74A); (0x7A6, 0x7B0); (0x7EB, 0x7F5); (0x7FA, 0x7FA); (0x7FD, 0x7FD);
  (0x816, 0x82D); (0x859, 0x85B); (0x888, 0x888); (0x890, 0x891); (0x898, 0x89F);
  (0x8C9, 0x902); (0x93A, 0x93A); (0x93C, 0x93C); (0x941, 0x948); (0x94D, 0x94D);
  (0x951, 0x957); (0x962, 0x963); (0x971, 0x971); (0x981, 0x981); (0x9BC, 0x9BC);
  (0x9C1, 0x9C4); (0x9CD, 0x9CD); (0x9E2, 0x9E3); (0x9FE, 0x9FE); (0xA01, 0xA02);
  (0xA3C, 0xA3C); (0xA41, 0xA42); (0xA47, 0xA48); (0xA4B, 0xA4D); (0xA51, 0xA51);
  (0xA70, 0xA71); (0xA75, 0xA75); (0xA81, 0xA82); (0xABC, 0xABC); (0xAC1, 0xAC5);
  (0xAC7, 0xAC8); (0xACD, 0xACD); (0xAE2, 0xAE3); (0xAFA, 0xAFF); (0xB01, 0xB01);
  (0xB3C, 0xB3C); (0xB3F, 0xB3F); (0xB41, 0xB44); (0xB4D, 0xB4D); (0xB55, 0xB56);
  (0xB62, 0xB63); (0xB82, 0xB82); (0xBC0, 0xBC0); (0xBCD, 0xBCD); (0xC00, 0xC00);
  (0xC04, 0xC04); (0xC3C, 0xC3C); (0xC3E, 0xC40); (0xC46, 0xC48); (0xC4A, 0xC4D);
  (0xC55, 0xC56); (0xC62, 0xC63); (0xC81, 0xC81); (0xCBC, 0xCBC); (0xCBF, 0xCBF);
  (0xCC6, 0xCC6); (0xCCC, 0xCCD); (0xCE2, 0xCE3); (0xD00, 0xD01); (0xD3B, 0xD3C);
  (0xD41, 0xD44); (0xD4D, 0xD4D); (0xD62, 0xD63); (0xD81, 0xD81); (0xDCA, 0xDCA);
  (0xDD2, 0xDD4); (0xDD6, 0xDD6); (0xE31, 0xE31); (0xE34, 0xE3A); (0xE46, 0xE4E);
  (0xEB1, 0xEB1); (0xEB4, 0xEBC); (0xEC6, 0xEC6); (0xEC8, 0xECD); (0xF18, 0xF19);
  (0xF35, 0xF35); (0xF37, 0xF37); (0xF39, 0xF39); (0xF71, 0xF7E); (0xF80, 0xF84);
  (0xF86, 0xF87); (0xF8D, 0xF97); (0xF99, 0xFBC); (0xFC6, 0xFC6); (0x102D, 0x1030);
  (0x1032, 0x1037); (0x1039, 0x103A); (0x103D, 0x103E); (0x1058, 0x1059); (0x105E, 0x1060);
  (0x1071, 0x1074); (0x1082, 0x1082); (0x1085, 0x1086); (0x108D, 0x108D); (0x109D, 0x109D);
  (0x10FC, 0x10FC); (0x135D, 0x135F); (0x1712, 0x1714); (0x1732, 0x1733); (0x1752, 0x1753);
  (0x1772, 0x1773); (0x17B4, 0x17B5); (0x17B7, 0x17BD); (0x17C6, 0x17C6); (0x17C9, 0x17D3);
  (0x17D7, 0x17D7); (0x17DD, 0x17DD); (0x180B, 0x180F); (0x1843, 0x1843); (0x1885, 0x1886);
  (0x18A9, 0x18A9); (0x1920, 0x1922); (0x1927, 0x1928); (0x1932, 0x1932); (0x1939, 0x193B);
  (0x1A17, 0x1A18); (0x1A1B, 0x1A1B); (0x1A56, 0x1A56); (0x1A58, 0x1A5E); (0x1A60, 0x1A60);
  (0x1A62, 0x1A62); (0x1A65, 0x1A6C); (0x1A73, 0x1A7C); (0x1A7F, 0x1A7F); (0x1AA7, 0x1AA7);
  (0x1AB0, 0x1ACE); (0x1B00, 0x1B03); (0x1B34, 0x1B34); (0x1B36, 0x1B3A); (0x1B3C, 0x1B3C);
  (0x1B42, 0x1B42); (0x1B6B, 0x1B73); (0x1B80, 0x1B81); (0x1BA2, 0x1BA5); (0x1BA8, 0x1BA9);
  (0x1BAB, 0x1BAD); (0x1BE6, 0x1BE6); (0x1BE8, 0x1BE9); (0x1BED, 0x1BED); (0x1BEF, 0x1BF1);
  (0x1C2C, 0x1C33); (0x1C36, 0x1C37); (0x1C78, 0x1C7D); (0x1CD0, 0x1CD2); (0x1CD4, 0x1CE0);
  (0x1CE2, 0x1CE8); (0x1CED, 0x1CED); (0x1CF4, 0x1CF4); (0x1CF8, 0x1CF9); (0x1D2C, 0x1D6A);
  (0x1D78, 0x1D78); (0x1D9B, 0x1DFF); (0x1FBD, 0x1FBD); (0x1FBF, 0x1FC1); (0x1FCD, 0x1FCF);
  (0x1FDD, 0x1FDF); (0x1FED, 0x1FEF); (0x1FFD, 0x1FFE); (0x200B, 0x200F); (0x2018, 0x2019);
  (0x2024, 0x2024); (0x2027, 0x2027); (0x202A, 0x202E); (0x2060, 0x2064); (0x2066, 0x206F);
  (0x2071, 0x2071); (0x207F, 0x207F); (0x2090, 0x209C); (0x20D0, 0x20F0); (0x2C7C, 0x2C7D);
  (0x2CEF, 0x2CF1); (0x2D6F, 0x2D6F); (0x2D7F, 0x2D7F); (0x2DE0, 0x2DFF); (0x2E2F, 0x2E2F);
  (0x3005, 0x3005); (0x302A, 0x302D); (0x3031, 0x3035); (0x303B, 0x303B); (0x3099, 0x309E);
  (0x30FC, 0x30FE); (0xA015, 0xA015); (0xA4F8, 0xA4FD); (0xA60C, 0xA60C); (0xA66F, 0xA672);
  (0xA674, 0xA67D); (0xA67F, 0xA67F); (0xA69C, 0xA69F); (0xA6F0, 0xA6F1); (0xA700, 0xA721);
  (0xA770, 0xA770); (0xA788, 0xA78A); (0xA7F2, 0xA7F4); (0xA7F8, 0xA7F9); (0xA802, 0xA802);
  (0xA806, 0xA806); (0xA80B, 0xA80B); (0xA825, 0xA826); (0xA82C, 0xA82C); (0xA8C4, 0xA8C5);
  (0xA8E0, 0xA8F1); (0xA8FF, 0xA8FF); (0xA926, 0xA92D); (0xA947, 0xA951); (0xA980, 0xA982);
  (0xA9B3, 0xA9B3); (0xA9B6, 0xA9B9); (0xA9BC, 0xA9BD); (0xA9CF, 0xA9CF); (0xA9E5, 0xA9E6);
  (0xAA29, 0xAA2E); (0xAA31, 0xAA32); (0xAA35, 0xAA36); (0xAA43, 0xAA43); (0xAA4C, 0xAA4C);
  (0xAA70, 0xAA70); (0xAA7C, 0xAA7C); (0xAAB0, 0xAAB0); (0xAAB2, 0xAAB4); (0xAAB7, 0xAAB8);
  (0xAABE, 0xAABF); (0xAAC1, 0xAAC1); (0xAADD, 0xAADD); (0xAAEC, 0xAAED); (0xAAF3, 0xAAF4);
  (0xAAF6, 0xAAF6); (0xAB5B, 0xAB5F); (0xAB69, 0xAB6B); (0xABE5, 0xABE5); (0xABE8, 0xABE8);
  (0xABED, 0xABED); (0xFB1E, 0xFB1E); (0xFBB2, 0xFBC2); (0xFE00, 0xFE0F); (0xFE13, 0xFE13);
  (0xFE20, 0xFE2F); (0xFE52, 0xFE52); (0xFE55, 0xFE55); (0xFEFF, 0xFEFF); (0xFF07, 0xFF07);
  (0xFF0E, 0xFF0E); (0xFF1A, 0xFF1A); (0xFF3E, 0xFF3E); (0xFF40, 0xFF40); (0xFF70, 0xFF70);
  (0xFF9E, 0xFF9F); (0xFFE3, 0xFFE3); (0xFFF9, 0xFFFB); (0x101FD, 0x101FD); (0x102E0, 0x102E0);
  (0x10376, 0x1037A); (0x10780, 0x10785); (0x10787, 0x107B0); (0x107B2, 0x107BA); (0x10A01, 0x10A03);
  (0x10A05, 0x10A06); (0x10A0C, 0x10A0F); (0x10A38, 0x10A3A); (0x10A3F, 0x10A3F); (0x10AE5, 0x10AE6);
  (0x10D24, 0x10D27); (0x10EAB, 0x10EAC); (0x10F46, 0x10F50); (0x10F82, 0x10F85); (0x11001, 0x11001);
  (0x11038, 0x11046); (0x11070, 0x11070); (0x11073, 0x11074); (0x1107F, 0x11081); (0x110B3, 0x110B6);
  (0x110B9, 0x110BA); (0x110BD, 0x110BD); (0x110C2, 0x110C2); (0x110CD, 0x110CD); (0x11100, 0x11102);
  (0x11127, 0x1112B); (0x1112D, 0x11134); (0x11173, 0x11173); (0x11180, 0x11181); (0x111B6, 0x111BE);
  (0x111C9, 0x111CC); (0x111CF, 0x111CF); (0x1122F, 0x11231); (0x11234, 0x11234); (0x11236, 0x11237);
  (0x1123E, 0x1123E); (0x112DF, 0x112DF); (0x112E3, 0x112EA); (0x11300, 0x11301); (0x1133B, 0x1133C);
  (0x11340, 0x11340); (0x11366, 0x1136C); (0x11370, 0x11374); (0x11438, 0x1143F); (0x11442, 0x11444);
  (0x11446, 0x11446); (0x1145E, 0x1145E); (0x114B3, 0x114B8); (0x114BA, 0x114BA); (0x114BF, 0x114C0);
  (0x114C2, 0x114C3); (0x115B2, 0x115B5); (0x115BC, 0x115BD); (0x115BF, 0x115C0); (0x115DC, 0x115DD);
  (0x11633, 0x1163A); (0x1163D, 0x1163D); (0x1163F, 0x11640); (0x116AB, 0x116AB); (0x116AD, 0x116AD);
  (0x116B0, 0x116B5); (0x116B7, 0x116B7); (0x1171D, 0x1171F); (0x11722, 0x11725); (0x11727, 0x1172B);
  (0x1182F, 0x11837); (0x11839, 0x1183A); (0x1193B, 0x1193C); (0x1193E, 0x1193E); (0x11943, 0x11943);
  (0x119D4, 0x119D7); (0x119DA, 0x119DB); (0x119E0, 0x119E0); (0x11A01, 0x11A0A); (0x11A33, 0x11A38);
  (0x11A3B, 0x11A3E); (0x11A47, 0x11A47); (0x11A51, 0x11A56); (0x11A59, 0x11A5B); (0x11A8A, 0x11A96);
  (0x11A98, 0x11A99); (0x11C30, 0x11C36); (0x11C38, 0x11C3D); (0x11C3F, 0x11C3F); (0x11C92, 0x11CA7);
  (0x11CAA, 0x11CB0); (0x11CB2, 0x11CB3); (0x11CB5, 0x11CB6); (0x11D31, 0x11D36); (0x11D3A, 0x11D3A);
  (0x11D3C, 0x11D3D); (0x11D3F, 0x11D45); (0x11D47, 0x11D47); (0x11D90, 0x11D91); (0x11D95, 0x11D95);
  (0x11D97, 0x11D97); (0x11EF3, 0x11EF4); (0x13430, 0x13438); (0x16AF0, 0x16AF4); (0x16B30, 0x16B36);
  (0x16B40, 0x16B43); (0x16F4F, 0x16F4F); (0x16F8F, 0x16F9F); (0x16FE0, 0x16FE1); (0x16FE3, 0x16FE4);
  (0x1AFF0, 0x1AFF3); (0x1AFF5, 0x1AFFB); (0x1AFFD, 0x1AFFE); (0x1BC9D, 0x1BC9E); (0x1BCA0, 0x1BCA3);
  (0x1CF00, 0x1CF2D); (0x1CF30, 0x1CF46); (0x1D167, 0x1D169); (0x1D173, 0x1D182); (0x1D185, 0x1D18B);
  (0x1D1AA, 0x1D1AD); (0x1D242, 0x1D244); (0x1DA00, 0x1DA36); (0x1DA3B, 0x1DA6C); (0x1DA75, 0x1DA75);
  (0x1DA84, 0x1DA84); (0x1DA9B, 0x1DA9F); (0x1DAA1, 0x1DAAF); (0x1E000, 0x1E006); (0x1E008, 0x1E018);
  (0x1E01B, 0x1E021); (0x1E023, 0x1E024); (0x1E026, 0x1E02A); (0x1E130, 0x1E13D); (0x1E2AE, 0x1E2AE);
  (0x1E2EC, 0x1E2EF); (0x1E8D0, 0x1E8D6); (0x1E944, 0x1E94B); (0x1F3FB, 0x1F3FF); (0xE0001, 0xE0001);
  (0xE0020, 0xE007F); (0xE0100, 0xE01EF)
].

Definition in_ranges (rs : list (Z * Z)) (c : Z) : bool :=
  existsb (fun '(lo, hi) => (lo <=? c) && (c <=? hi)) rs.

Definition is_cased (c : Z) : bool := in_ranges cased_ranges c.

Definition is_case_ignorable (c : Z) : bool := in_ranges case_ignorable_ranges c.

Fixpoint lower_delta (rs : list (Z * Z * Z * Z)) (c : Z) : Z :=
  match rs with
  | [] => 0
  | (lo, hi, st, d) :: rs' =>
      if (lo <=? c) && (c <=? hi) && ((c - lo) mod st =? 0) then d else lower_delta rs' c
  end.

(** The full lowercase mapping of one code point other than U+03A3: the
    simple mappings of UnicodeData and the one unconditional multi-code
    point mapping of SpecialCasing (U+0130 to [i] + U+0307). *)
Definition lowerFull (c : Z) : list Z :=
  if c =? 0x130 then [0x69; 0x307] else [c + lower_delta lower_ranges c].

(** Skip case-ignorable code points, then look for a cased one. *)
Fixpoint cased_after_ignorables (l : list Z) : bool :=
  match l with
  | [] => false
  | c :: l' => if is_case_ignorable c then cased_after_ignorables l' else is_cased c
  end.

(** [before] is the text before the sigma, nearest code point first. *)
Definition final_sigma (before after : list Z) : bool :=
  cased_after_ignorables before && negb (cased_after_ignorables after).

Fixpoint lower_cps (before s : list Z) : list Z :=
  match s with
  | [] => []
  | c :: rest =>
      (if c =? 0x3A3 then (if final_sigma before rest then [0x3C2] else [0x3C3])
       else lowerFull c) ++ lower_cps (c :: before) rest
  end.

(** Byte strings that are not UTF-8 are never canister text; they are
    left as they are. *)
Definition toLowerCase (s : string) : string :=
  match utf8_decode (bytes_of_string s) with
  | Some cps => string_of_bytes (flat_map utf8_encode (lower_cps [] cps))
  | None => s
  end.

(** A Unicode scalar value: a code point that is not a surrogate. *)
Definition valid_scalar (c : Z) : bool :=
  (0 <=? c) && (c <=? 0x10FFFF) && negb ((0xD800 <=? c) && (c <=? 0xDFFF)).

(** A code point that lower-casing leaves alone. *)
Definition lower_fixed (x : Z) : bool :=
  valid_scalar x && (lower_delta lower_ranges x =? 0) && negb (x =? 0x130) && negb (x =? 0x3A3).

(** Every entry of [lower_ranges] has a positive step and maps each of its
    code points to one that lower-casing leaves alone. *)
Definition lower_ranges_closed : bool :=
  forallb (fun '(lo, hi, st, d) =>
             (0 <? st) && (lo <=? hi) &&
             forallb (fun k => lower_fixed (lo + st * k + d))
               (map Z.of_nat (seq 0 (S (Z.to_nat ((hi - lo) / st))))))
    lower_ranges.

(** ASCII lower-casing, to state case-insensitive matching of ASCII text. *)
Definition asciiLowerChar (c : ascii) : ascii :=
  let n := nat_of_ascii c in
  if (Nat.leb 65 n && Nat.leb n 90)%bool then ascii_of_nat (n + 32) else c.

Fixpoint asciiLowerCase (s : string) : string :=
  match s with
  | EmptyString => EmptyString
  | String c s' => String (asciiLowerChar c) (asciiLowerCase s')
  end.

Definition is_ascii_string (s : string) : bool :=
  forallb (fun a => Nat.ltb (nat_of_ascii a) 128) (list_ascii_of_string s).

(** [s.includes(k)]: [k] occurs in [s] at some position. *)
Fixpoint includes (s k : string) : bool :=
  if String.prefix k s then true
  else match s with
       | EmptyString => false
       | String _ s' => includes s' k
       end.

(** [Array.prototype.slice(start, end)] with integer arguments: a negative
    index counts from the end, both are clipped to [0, length]. *)
Definition js_slice {A : Type} (l : list A) (start end_ : Z) : list A :=
  let len := Z.of_nat (length l) in
  let from := if start <? 0 then Z.max (len + start) 0 else Z.min start len in
  let to := if end_ <? 0 then Z.max (len + end_) 0 else Z.min end_ len in
  firstn (Z.to_nat (to - from)) (skipn (Z.to_nat from) l).

(** ** [uuidv4()]

    The [globalThis.crypto.getRandomValues] workaround returns a fresh
    array of 32 bytes [Math.floor(Math.random() * 256)]; [rnds] is that
    array.  [v4] sets the version and variant bits of bytes 6 and 8 and
    formats bytes 0..15 as [xxxxxxxx-xxxx-xxxx-xxxx-xxxxxxxxxxxx]. *)

Definition hexDigit (n : Z) : ascii :=
  nth (Z.to_nat n) (list_ascii_of_string "0123456789abcdef"%string) "0"%char.

(** [byteToHex[b] = (b + 0x100).toString(16).slice(1)] *)
Definition byteToHex (b : Z) : string :=
  String (hexDigit (b / 16)) (String (hexDigit (b mod 16)) EmptyString).

Fixpoint list_set (l : list Z) (i : nat) (x : Z) : list Z :=
  match l, i with
  | [], _ => []
  | _ :: l', O => x :: l'
  | y :: l', S i' => y :: list_set l' i' x
  end.

Definition hexOf (arr : list Z) (idx : list nat) : string :=
  fold_right (fun i acc => (byteToHex (nth i arr 0) ++ acc)%string) EmptyString idx.

Definition unsafeStringify (arr : list Z) : string :=
  (hexOf arr [0;1;2;3]%nat ++ "-" ++ hexOf arr [4;5]%nat ++ "-" ++
   hexOf arr [6;7]%nat ++ "-" ++ hexOf arr [8;9]%nat ++ "-" ++
   hexOf arr [10;11;12;13;14;15]%nat)%string.

Definition uuidv4 (rnds : list Z) : string :=
  let r6 := list_set rnds 6 (Z.lor (Z.land (nth 6 rnds 0) 15) 64) in
  let r8 := list_set r6 8 (Z.lor (Z.land (nth 8 r6 0) 63) 128) in
  unsafeStringify r8.

(** ** The canister's functions *)

(** [getFlightBookings] *)
Definition getFlightBookings (m : StableBTreeMap) : Result (list FlightBooking) string :=
  Ok (map_values m).

Definition notFoundGetMsg (i : string) : string :=
  ("A flight booking with id=" ++ i ++ " not found")%string.

(** [getFlightBooking] *)
Definition getFlightBooking (i : string) (m : StableBTreeMap)
  : Result FlightBooking string :=
  match map_get i m with
  | Some fb => Ok fb
  | None => Err (notFoundGetMsg i)
  end.

Definition invalidInputMsg : string :=
  "Invalid input. Please provide all required fields."%string.

Definition invalidTimeRangeMsg : string :=
  "Arrival time must be after the departure time."%string.

(** The guard [!payload.airline || ... || !payload.arrivalTime]. *)
Definition payload_missing (p : FlightBookingPayload) : bool :=
  (falsy_string (Payload.airline p) || falsy_string (Payload.departureAirport p)
   || falsy_string (Payload.arrivalAirport p) || falsy_nat64 (Payload.departureTime p)
   || falsy_nat64 (Payload.arrivalTime p))%bool.

(** [addFlightBooking]: [now] is [ic.time()], [rnds] the random bytes of
    [uuidv4()]. *)
Definition addFlightBooking (now : nat64) (rnds : list Z) (payload : FlightBookingPayload)
  (m : StableBTreeMap) : Result FlightBooking string * StableBTreeMap :=
  if payload_missing payload then (Err invalidInputMsg, m)
  else if Payload.departureTime payload >=? Payload.arrivalTime payload then
    (Err invalidTimeRangeMsg, m)
  else
    (* { id: uuidv4(), createdAt: ic.time(), updatedAt: Opt.None, ...payload } *)
    let flightBooking :=
      {| id := uuidv4 rnds;
         airline := Payload.airline payload;
         departureAirport := Payload.departureAirport payload;
         arrivalAirport := Payload.arrivalAirport payload;
         departureTime := Payload.departureTime payload;
         arrivalTime := Payload.arrivalTime payload;
         createdAt := now;
         updatedAt := None |} in
    (Ok flightBooking, map_insert (id flightBooking) flightBooking m).

Definition notFoundUpdateMsg (i : string) : string :=
  ("Couldn't update a flight booking with id=" ++ i ++ ". Flight booking not found")%string.

(** [updateFlightBooking]: [now] is [ic.time()]. *)
Definition updateFlightBooking (now : nat64) (i : string) (payload : FlightBookingPayload)
  (m : StableBTreeMap) : Result FlightBooking string * StableBTreeMap :=
  if payload_missing payload then (Err invalidInputMsg, m)
  else if Payload.departureTime payload >=? Payload.arrivalTime payload then
    (Err invalidTimeRangeMsg, m)
  else
    match map_get i m with
    | Some flightBooking =>
        (* { ...flightBooking, ...payload, updatedAt: Opt.Some(ic.time()) } *)
        let updatedFlightBooking :=
          {| id := id flightBooking;
             airline := Payload.airline payload;
             departureAirport := Payload.departureAirport payload;
             arrivalAirport := Payload.arrivalAirport payload;
             departureTime := Payload.departureTime payload;
             arrivalTime := Payload.arrivalTime payload;
             createdAt := createdAt flightBooking;
             updatedAt := Some now |} in
        (Ok updatedFlightBooking,
         map_insert (id flightBooking) updatedFlightBooking m)
    | None => (Err (notFoundUpdateMsg i), m)
    end.

Definition notFoundDeleteMsg (i : string) : string :=
  ("Couldn't delete a flight booking with id=" ++ i ++ ". Flight booking not found.")%string.

(** [deleteFlightBooking] *)
Definition deleteFlightBooking (i : string) (m : StableBTreeMap)
  : Result FlightBooking string * StableBTreeMap :=
  match map_remove i m with
  | (Some deletedFlightBooking, m') => (Ok deletedFlightBooking, m')
  | (None, m') => (Err (notFoundDeleteMsg i), m')
  end.

(** [searchFlightBookings] *)
Definition searchFlightBookings (keyword : string) (m : StableBTreeMap)
  : Result (list FlightBooking) string :=
  Ok (filter (fun booking => includes (toLowerCase (airline booking)) (toLowerCase keyword))
             (map_values m)).

(** [countFlightBookings] *)
Definition countFlightBookings (m : StableBTreeMap) : Result Z string :=
  Ok (Z.of_nat (map_len m)).

(** [getFlightBookingsPaginated] *)
Definition getFlightBookingsPaginated (page pageSize : Z) (m : StableBTreeMap)
  : Result (list FlightBooking) string :=
  let startIdx := (page - 1) * pageSize in
  Ok (js_slice (map_values m) startIdx (startIdx + pageSize)).

(** [getFlightBookingsByTimeRange] *)
Definition getFlightBookingsByTimeRange (startTime endTime : nat64) (m : StableBTreeMap)
  : Result (list FlightBooking) string :=
  Ok (filter (fun booking => (startTime <=? departureTime booking)
                             && (arrivalTime booking <=? endTime))%bool
             (map_values m)).

(** ** Reachable states

    The stable map starts empty; only the three update functions change
    it. *)
Inductive reachable : StableBTreeMap -> Prop :=
| reach_init : reachable []
| reach_add now rnds p m :
    reachable m -> reachable (snd (addFlightBooking now rnds p m))
| reach_update now i p m :
    reachable m -> reachable (snd (updateFlightBooking now i p m))
| reach_delete i m :
    reachable m -> reachable (snd (deleteFlightBooking i m)).

(** The invariant of the stable map: keys strictly increasing and every
    record stored under its own [id]. *)
Definition sorted_keys (m : StableBTreeMap) : Prop := StronglySorted key_lt (keys m).

Definition well_keyed (m : StableBTreeMap) : Prop :=
  forall k v, In (k, v) m -> id v = k.

(** A payload that passes both checks of [addFlightBooking] and
    [updateFlightBooking], as the spec words it. *)
Definition valid_payload (p : FlightBookingPayload) : Prop :=
  Payload.airline p <> EmptyString /\ Payload.departureAirport p <> EmptyString /\
  Payload.arrivalAirport p <> EmptyString /\ Payload.departureTime p <> 0 /\
  Payload.arrivalTime p <> 0 /\ Payload.departureTime p < Payload.arrivalTime p.

(** A payload field is missing: an empty string or a zero [nat64]. *)
Definition field_missing (p : FlightBookingPayload) : Prop :=
  Payload.airline p = EmptyString \/ Payload.departureAirport p = EmptyString \/
  Payload.arrivalAirport p = EmptyString \/ Payload.departureTime p = 0 \/
  Payload.arrivalTime p = 0.

(** A message names the identifier [i] when [i] occurs in it. *)
Definition names_id (msg i : string) : Prop :=
  exists pre post, msg = (pre ++ i ++ post)%string.

(** [FilterRel P l l']: [l'] is the sub-sequence of [l] of the elements
    satisfying [P], in the order of [l]. *)
Inductive FilterRel {A : Type} (P : A -> Prop) : list A -> list A -> Prop :=
| filter_nil : FilterRel P [] []
| filter_keep x l l' : P x -> FilterRel P l l' -> FilterRel P (x :: l) (x :: l')
| filter_drop x l l' : ~ P x -> FilterRel P l l' -> FilterRel P (x :: l) l'.

(** [keyword] occurs in [s] up to ASCII letter case. *)
Definition ci_substring (keyword s : string) : Prop :=
  exists pre mid post, s = (pre ++ mid ++ post)%string /\ asciiLowerCase mid = asciiLowerCase keyword.

(** A booking's interval lies inside [[startTime, endTime]]. *)
Definition contained_in (startTime endTime : nat64) (r : FlightBooking) : Prop :=
  startTime <= departureTime r /\ arrivalTime r <= endTime.

(** ** Sample states *)

Definition sample_payload : FlightBookingPayload :=
  mkPayload "Delta"%string "JFK"%string "LAX"%string 100 200.

(** The text of a list of code points. *)
Definition utf8_text (cps : list Z) : string := string_of_bytes (flat_map utf8_encode cps).

(** A booking with airline "ΑΣ" (Greek capital alpha, capital sigma). *)
Definition store_sigma : StableBTreeMap :=
  snd (addFlightBooking 5 (repeat 0 32)
         (mkPayload (utf8_text [0x391; 0x3A3]) "ATH"%string "JFK"%string 100 200) []).

Definition keyword_sigma : string := utf8_text [0x3A3].

Definition store1 : StableBTreeMap :=
  snd (addFlightBooking 5 (repeat 0 32) sample_payload []).

Definition store2 : StableBTreeMap :=
  snd (addFlightBooking 7 (repeat 17 32) sample_payload store1).

Definition store1_id : string := "00000000-0000-4000-8000-000000000000"%string.

Definition booking (k air : string) (dep arr : Z) : FlightBooking :=
  mkFlightBooking k air "JFK"%string "LAX"%string dep arr 1 None.

Definition b1 := booking "k1" "Delta" 10 20.
Definition b2 := booking "k2" "united" 15 40.
Definition b3 := booking "k3" "DELTA AIR" 30 50.
Definition b4 := booking "k4" "aa-lines" 5 25.
Definition b5 := booking "k5" "Lufthansa" 45 60.

(** Five records with keys k1 < ... < k5, inserted out of order. *)
Definition store5 : StableBTreeMap :=
  fold_left (fun m b => map_insert (id b) b m) [b3; b1; b5; b2; b4] [].

(** A stored record meets what [addFlightBooking] and [updateFlightBooking]
    check of their payloads. *)
Definition valid_record (r : FlightBooking) : Prop :=
  airline r <> EmptyString /\ departureAirport r <> EmptyString /\
  arrivalAirport r <> EmptyString /\ departureTime r <> 0 /\
  arrivalTime r <> 0 /\ departureTime r < arrivalTime r.

Definition store2_new : FlightBooking :=
  mkFlightBooking "11111111-1111-4111-9111-111111111111" "Delta" "JFK" "LAX" 100 200 7 None.

(** ** Small tests *)

Example uuid_zero :
  uuidv4 (repeat 0 32) = "00000000-0000-4000-8000-000000000000"%string.
Proof. reflexivity. Qed.

Example slice_neg : js_slice [1;2;3;4;5] (-4) (-2) = [2;3].
Proof. reflexivity. Qed.

Example lower_unicode_test :
  toLowerCase (utf8_text [0xC9; 0x4C; 0x41; 0x4E]) = utf8_text [0xE9; 0x6C; 0x61; 0x6E] /\
  toLowerCase (utf8_text [0x3A3; 0x391; 0x3A3]) = utf8_text [0x3C3; 0x3B1; 0x3C2] /\
  toLowerCase (utf8_text [0x3A3]) = utf8_text [0x3C3] /\
  toLowerCase (utf8_text [0x130]) = utf8_text [0x69; 0x307].
Proof. vm_compute. repeat split. Qed.

Example lower_test : includes (toLowerCase "aa-lines") (toLowerCase "AA") = true.
Proof. reflexivity. Qed.

(** ** Key order *)

Lemma ascii_compare_refl (a : ascii) : Ascii.compare a a = Eq.
Proof. unfold Ascii.compare. apply N.compare_refl. Qed.

Lemma ascii_compare_lt_trans (a b c : ascii) :
  Ascii.compare a b = Lt -> Ascii.compare b c = Lt -> Ascii.compare a c = Lt.
Proof. unfold Ascii.compare. rewrite !N.compare_lt_iff. lia. Qed.

Lemma string_compare_refl (s : string) : String.compare s s = Eq.
Proof. induction s as [|c s IH]; simpl; [reflexivity|]. now rewrite ascii_compare_refl. Qed.

Lemma key_lt_irrefl (s : string) : ~ key_lt s s.
Proof. unfold key_lt. now rewrite string_compare_refl. Qed.

Lemma key_lt_trans (a b c : string) : key_lt a b -> key_lt b c -> key_lt a c.
Proof.
  unfold key_lt. revert b c.
  induction a as [|x a IH]; intros [|y b] [|z c]; simpl; try discriminate; auto.
  destruct (Ascii.compare x y) eqn:Hxy; try discriminate;
  destruct (Ascii.compare y z) eqn:Hyz; try discriminate; intros H1 H2.
  - apply Ascii.compare_eq_iff in Hxy, Hyz. subst. rewrite ascii_compare_refl. eauto.
  - apply Ascii.compare_eq_iff in Hxy. subst. now rewrite Hyz.
  - apply Ascii.compare_eq_iff in Hyz. subst. now rewrite Hxy.
  - now rewrite (ascii_compare_lt_trans _ _ _ Hxy Hyz).
Qed.

Lemma key_lt_gt (a b : string) : String.compare a b = Gt -> key_lt b a.
Proof. intros H. unfold key_lt. rewrite String.compare_antisym, H. reflexivity. Qed.

(** ** Lemmas on the stable map *)

Section StableMap.

Lemma map_get_insert_same (k : string) (v : FlightBooking) (m : StableBTreeMap) :
  map_get k (map_insert k v m) = Some v.
Proof.
  induction m as [|[k' v'] m IH]; simpl.
  - now rewrite String.eqb_refl.
  - destruct (String.compare k k') eqn:Hc; simpl; rewrite ?String.eqb_refl; auto.
    destruct (String.eqb_spec k k'); auto.
    subst. now rewrite string_compare_refl in Hc.
Qed.

Lemma map_get_insert_other (k k' : string) (v : FlightBooking) (m : StableBTreeMap) :
  k' <> k -> map_get k' (map_insert k v m) = map_get k' m.
Proof.
  intros Hne. induction m as [|[k0 v0] m IH]; simpl.
  - destruct (String.eqb_spec k' k); congruence.
  - destruct (String.compare k k0) eqn:Hc; simpl.
    + apply String.compare_eq_iff in Hc. subst k0.
      destruct (String.eqb_spec k' k); congruence.
    + destruct (String.eqb_spec k' k); [congruence|reflexivity].
    + destruct (String.eqb_spec k' k0); auto.
Qed.

Lemma in_map_insert (k k' : string) (v v' : FlightBooking) (m : StableBTreeMap) :
  In (k', v') (map_insert k v m) -> (k', v') = (k, v) \/ In (k', v') m.
Proof.
  induction m as [|[k0 v0] m IH]; simpl.
  - intuition.
  - destruct (String.compare k k0); simpl; intuition.
Qed.

Lemma in_keys_insert (k x : string) (v : FlightBooking) (m : StableBTreeMap) :
  In x (keys (map_insert k v m)) -> x = k \/ In x (keys m).
Proof.
  unfold keys. intros Hx. apply in_map_iff in Hx as [[k' v'] [<- Hin]].
  apply in_map_insert in Hin as [Heq|Hin].
  - left. now inversion Heq.
  - right. now apply in_map_iff; exists (k', v').
Qed.

Lemma map_remove_fst (k : string) (m : StableBTreeMap) :
  fst (map_remove k m) = map_get k m.
Proof.
  induction m as [|[k' v'] m IH]; simpl; auto.
  destruct (String.eqb k k'); auto.
  destruct (map_remove k m); simpl in *; auto.
Qed.

Lemma map_remove_absent (k : string) (m : StableBTreeMap) :
  map_get k m = None -> snd (map_remove k m) = m.
Proof.
  induction m as [|[k' v'] m IH]; simpl; auto.
  destruct (String.eqb k k'); [discriminate|].
  intros H. specialize (IH H). destruct (map_remove k m); simpl in *. now subst.
Qed.

Lemma in_map_remove (k : string) (e : string * FlightBooking) (m : StableBTreeMap) :
  In e (snd (map_remove k m)) -> In e m.
Proof.
  induction m as [|[k' v'] m IH]; simpl; auto.
  destruct (String.eqb k k'); simpl; auto.
  destruct (map_remove k m) as [r m'] eqn:Hr; simpl in *. intuition.
Qed.

Lemma map_get_remove_other (k k' : string) (m : StableBTreeMap) :
  k' <> k -> map_get k' (snd (map_remove k m)) = map_get k' m.
Proof.
  intros Hne. induction m as [|[k0 v0] m IH]; simpl; auto.
  destruct (String.eqb_spec k k0).
  - subst k0. simpl. destruct (String.eqb_spec k' k); congruence.
  - destruct (map_remove k m) as [r m'] eqn:Hr; simpl in *.
    destruct (String.eqb k' k0); auto.
Qed.

Lemma map_get_in (k : string) (v : FlightBooking) (m : StableBTreeMap) :
  map_get k m = Some v -> In (k, v) m.
Proof.
  induction m as [|[k' v'] m IH]; simpl; [discriminate|].
  destruct (String.eqb_spec k k'); intros H; [inversion H; subst; auto | auto].
Qed.

Lemma map_get_not_in (k : string) (m : StableBTreeMap) :
  ~ In k (keys m) -> map_get k m = None.
Proof.
  induction m as [|[k' v'] m IH]; simpl; auto.
  intros Hn. destruct (String.eqb_spec k k'); [subst; tauto|]. auto.
Qed.

Lemma map_remove_gone (k : string) (m : StableBTreeMap) :
  sorted_keys m -> map_get k (snd (map_remove k m)) = None.
Proof.
  unfold sorted_keys. induction m as [|[k' v'] m IH]; simpl; auto.
  intros Hs. inversion Hs as [|? ? Hs' Hall]; subst.
  destruct (String.eqb_spec k k').
  - subst k'. simpl. apply map_get_not_in. intros Hin.
    rewrite Forall_forall in Hall. exact (key_lt_irrefl k (Hall k Hin)).
  - destruct (map_remove k m) as [r m'] eqn:Hr; simpl in *.
    destruct (String.eqb_spec k k'); [congruence|]. auto.
Qed.

Lemma sorted_insert (k : string) (v : FlightBooking) (m : StableBTreeMap) :
  sorted_keys m -> sorted_keys (map_insert k v m).
Proof.
  unfold sorted_keys. induction m as [|[k' v'] m IH]; simpl; intros Hs.
  - repeat constructor.
  - inversion Hs as [|? ? Hs' Hall]; subst.
    destruct (String.compare k k') eqn:Hc; simpl.
    + apply String.compare_eq_iff in Hc. subst. now constructor.
    + constructor; [exact Hs|]. constructor; [exact Hc|].
      rewrite Forall_forall in *. intros x Hx. eapply key_lt_trans; eauto.
    + constructor; [auto|]. apply Forall_forall. intros x Hx.
      apply in_keys_insert in Hx as [->|Hx].
      * now apply key_lt_gt.
      * rewrite Forall_forall in Hall. auto.
Qed.

Lemma keys_remove_incl (k x : string) (m : StableBTreeMap) :
  In x (keys (snd (map_remove k m))) -> In x (keys m).
Proof.
  unfold keys. intros Hx. apply in_map_iff in Hx as [e [<- Hin]].
  apply in_map_iff. exists e. split; auto. eapply in_map_remove; eauto.
Qed.

Lemma sorted_remove (k : string) (m : StableBTreeMap) :
  sorted_keys m -> sorted_keys (snd (map_remove k m)).
Proof.
  unfold sorted_keys. induction m as [|[k' v'] m IH]; simpl; intros Hs; auto.
  inversion Hs as [|? ? Hs' Hall]; subst.
  destruct (String.eqb k k'); simpl; auto.
  destruct (map_remove k m) as [r m'] eqn:Hr; simpl in *.
  constructor; [auto|]. rewrite Forall_forall in *. intros x Hx. apply Hall.
  pose proof (keys_remove_incl k x m) as Hi. rewrite Hr in Hi. auto.
Qed.

End StableMap.

(** ** Validation *)

Lemma payload_missing_spec (p : FlightBookingPayload) :
  payload_missing p = true <-> field_missing p.
Proof.
  unfold payload_missing, field_missing, falsy_string, falsy_nat64.
  rewrite !orb_true_iff, !String.eqb_eq, !Z.eqb_eq. tauto.
Qed.

Lemma valid_payload_checks (p : FlightBookingPayload) :
  valid_payload p <->
  payload_missing p = false /\ (Payload.departureTime p >=? Payload.arrivalTime p) = false.
Proof.
  unfold valid_payload. rewrite <- not_true_iff_false, payload_missing_spec.
  unfold field_missing. rewrite Z.geb_leb, <- not_true_iff_false, Z.leb_le. intuition lia.
Qed.

(** A failed check leaves the store as it was. *)
Lemma invalid_payload_checks (p : FlightBookingPayload) :
  ~ valid_payload p ->
  payload_missing p = true \/
  (payload_missing p = false /\ (Payload.departureTime p >=? Payload.arrivalTime p) = true).
Proof.
  intros Hn. rewrite valid_payload_checks in Hn.
  destruct (payload_missing p); [now left|right].
  destruct (Payload.departureTime p >=? Payload.arrivalTime p); tauto.
Qed.

(** ** The invariant of reachable states *)

Lemma well_keyed_insert (k : string) (v : FlightBooking) (m : StableBTreeMap) :
  id v = k -> well_keyed m -> well_keyed (map_insert k v m).
Proof.
  intros Hv Hm k' v' Hin. apply in_map_insert in Hin as [Heq|Hin].
  - inversion Heq; subst; auto.
  - eauto.
Qed.

Lemma well_keyed_remove (k : string) (m : StableBTreeMap) :
  well_keyed m -> well_keyed (snd (map_remove k m)).
Proof. intros Hm k' v' Hin. apply Hm. eapply in_map_remove; eauto. Qed.

Lemma reachable_inv (m : StableBTreeMap) :
  reachable m -> sorted_keys m /\ well_keyed m.
Proof.
  induction 1 as [|now rnds p m _ [Hs Hw]|now i p m _ [Hs Hw]|i m _ [Hs Hw]].
  - split; [constructor | intros k v []].
  - unfold addFlightBooking.
    destruct (payload_missing p); [simpl; auto|].
    destruct (_ >=? _); simpl; [auto|].
    split; [apply sorted_insert; auto | apply well_keyed_insert; auto].
  - unfold updateFlightBooking.
    destruct (payload_missing p); [simpl; auto|].
    destruct (_ >=? _); [simpl; auto|].
    destruct (map_get i m) as [fb|]; simpl; [|auto].
    split; [apply sorted_insert; auto | apply well_keyed_insert; auto].
  - unfold deleteFlightBooking.
    pose proof (sorted_remove i m Hs) as Hs'. pose proof (well_keyed_remove i m Hw) as Hw'.
    destruct (map_remove i m) as [[d|] m']; simpl in *; auto.
Qed.

(** The identifier [uuidv4()] returns is never empty. *)
Lemma uuidv4_nonempty (rnds : list Z) : uuidv4 rnds <> EmptyString.
Proof. unfold uuidv4, unsafeStringify, hexOf. simpl. discriminate. Qed.

Lemma names_id_intro (pre i post : string) : names_id (pre ++ i ++ post)%string i.
Proof. exists pre, post. reflexivity. Qed.

Lemma store1_reachable : reachable store1.
Proof. apply reach_add, reach_init. Qed.

Lemma store2_reachable : reachable store2.
Proof. apply reach_add, store1_reachable. Qed.

(** ** Strings: [includes] and [toLowerCase] *)

Lemma prefix_app (k s : string) :
  String.prefix k s = true <-> exists post, s = (k ++ post)%string.
Proof.
  revert s. induction k as [|c k IH]; intros [|d s]; simpl.
  - split; [exists ""%string; reflexivity | reflexivity].
  - split; [eexists; reflexivity | reflexivity].
  - split; [discriminate | intros [post H]; discriminate].
  - destruct (ascii_dec c d) as [<-|Hne].
    + rewrite IH. split; intros [post H]; exists post; [congruence | now inversion H].
    + split; [discriminate | intros [post H]; inversion H; congruence].
Qed.

Lemma includes_spec (s k : string) :
  includes s k = true <-> exists pre post, s = (pre ++ k ++ post)%string.
Proof.
  induction s as [|c s IH].
  - destruct k as [|a k]; simpl.
    + split; [intros _; exists ""%string, ""%string; reflexivity | reflexivity].
    + split; [discriminate|]. intros [pre [post H]]. destruct pre; discriminate.
  - change (includes (String c s) k) with
      (if String.prefix k (String c s) then true else includes s k).
    destruct (String.prefix k (String c s)) eqn:Hp.
    + split; [intros _ | reflexivity].
      apply prefix_app in Hp as [post Hp]. exists ""%string, post. exact Hp.
    + rewrite IH. split.
      * intros [pre [post H]]. exists (String c pre), post. simpl. congruence.
      * intros [pre [post H]]. destruct pre as [|c' pre]; simpl in H.
        -- assert (String.prefix k (String c s) = true) by (apply prefix_app; eauto).
           congruence.
        -- inversion H; subst. eauto.
Qed.

Lemma asciiLowerCase_app (a b : string) :
  asciiLowerCase (a ++ b) = (asciiLowerCase a ++ asciiLowerCase b)%string.
Proof. induction a as [|c a IH]; simpl; congruence. Qed.

Lemma asciiLowerCase_split (s x y : string) :
  asciiLowerCase s = (x ++ y)%string ->
  exists s1 s2, s = (s1 ++ s2)%string /\ asciiLowerCase s1 = x /\ asciiLowerCase s2 = y.
Proof.
  revert x. induction s as [|c s IH]; intros [|d x] H; simpl in H.
  - exists ""%string, ""%string. auto.
  - discriminate.
  - exists ""%string, (String c s). auto.
  - inversion H as [[Hd Hs]]. destruct (IH x Hs) as (s1 & s2 & -> & <- & <-).
    exists (String c s1), s2. auto.
Qed.

Lemma ascii_match_spec (keyword a : string) :
  includes (asciiLowerCase a) (asciiLowerCase keyword) = true <-> ci_substring keyword a.
Proof.
  rewrite includes_spec. unfold ci_substring. split.
  - intros (pre & post & H).
    apply asciiLowerCase_split in H as (s1 & s2 & -> & H1 & H2).
    apply asciiLowerCase_split in H2 as (t1 & t2 & -> & H3 & H4).
    exists s1, t1, t2. auto.
  - intros (pre & mid & post & -> & H).
    exists (asciiLowerCase pre), (asciiLowerCase post). now rewrite !asciiLowerCase_app, H.
Qed.

Lemma includes_empty (s : string) : includes s EmptyString = true.
Proof. destruct s; reflexivity. Qed.

Lemma filter_FilterRel {A : Type} (f : A -> bool) (P : A -> Prop) (l : list A) :
  (forall x, f x = true <-> P x) -> FilterRel P l (filter f l).
Proof.
  intros Hf. induction l as [|x l IH]; simpl; [constructor|].
  destruct (f x) eqn:Hx.
  - constructor; [apply Hf|]; auto.
  - constructor; [|auto]. rewrite <- Hf. congruence.
Qed.

(** ** [Array.prototype.slice] *)

Lemma firstn_min_length {A : Type} (n : nat) (l : list A) :
  firstn (Nat.min n (length l)) l = firstn n l.
Proof.
  destruct (Nat.le_ge_cases n (length l)).
  - now rewrite Nat.min_l.
  - rewrite Nat.min_r by auto. rewrite firstn_all, firstn_all2; auto.
Qed.

Lemma js_slice_nonneg {A : Type} (l : list A) (s n : Z) :
  0 <= s -> 0 <= n ->
  js_slice l s (s + n) = firstn (Z.to_nat n) (skipn (Z.to_nat s) l).
Proof.
  intros Hs Hn. unfold js_slice.
  replace (s <? 0) with false by (symmetry; apply Z.ltb_ge; lia).
  replace (s + n <? 0) with false by (symmetry; apply Z.ltb_ge; lia).
  destruct (Z.le_gt_cases s (Z.of_nat (length l))).
  - rewrite (Z.min_l s) by lia.
    rewrite <- (firstn_min_length (Z.to_nat n)), length_skipn. f_equal. lia.
  - rewrite !Z.min_r by lia. rewrite Z.sub_diag. simpl.
    rewrite skipn_all2 by lia. now rewrite firstn_nil.
Qed.

Lemma js_slice_empty {A : Type} (l : list A) (s e : Z) :
  (Z.of_nat (length l) <= s \/ e = s \/ e = 0) -> js_slice l s e = [].
Proof.
  intros H. unfold js_slice.
  destruct (Z.ltb_spec s 0), (Z.ltb_spec e 0);
    replace (Z.to_nat _) with 0%nat by lia; reflexivity.
Qed.

(** ** More on the stable map *)

Lemma sorted_tail_absent (k k' : string) (v' : FlightBooking) (m : StableBTreeMap) :
  sorted_keys ((k', v') :: m) -> ~ key_lt k' k -> ~ In k (keys m).
Proof.
  unfold sorted_keys. simpl. intros Hs Hn Hin. inversion Hs as [|? ? _ Hall]; subst.
  rewrite Forall_forall in Hall. exact (Hn (Hall k Hin)).
Qed.

Lemma key_lt_not_gt (a b : string) : key_lt a b -> ~ key_lt b a.
Proof. intros H1 H2. exact (key_lt_irrefl a (key_lt_trans _ _ _ H1 H2)). Qed.

Lemma sorted_in_get (k : string) (v : FlightBooking) (m : StableBTreeMap) :
  sorted_keys m -> In (k, v) m -> map_get k m = Some v.
Proof.
  induction m as [|[k' v'] m IH]; simpl; [tauto|]. intros Hs [Heq|Hin].
  - inversion Heq; subst. now rewrite String.eqb_refl.
  - assert (Hk : In k (keys m)) by (apply in_map_iff; exists (k, v); auto).
    destruct (String.eqb_spec k k') as [->|Hne].
    + exfalso. eapply sorted_tail_absent; [exact Hs| apply key_lt_irrefl | exact Hk].
    + apply IH; auto. unfold sorted_keys in *. simpl in Hs. now inversion Hs.
Qed.

Lemma map_len_insert (k : string) (v : FlightBooking) (m : StableBTreeMap) :
  sorted_keys m ->
  map_len (map_insert k v m) = (map_len m + match map_get k m with Some _ => 0 | None => 1 end)%nat.
Proof.
  unfold map_len. induction m as [|[k' v'] m IH]; simpl; intros Hs; [reflexivity|].
  destruct (String.compare k k') eqn:Hc; simpl.
  - apply String.compare_eq_iff in Hc. subst. rewrite String.eqb_refl. lia.
  - destruct (String.eqb_spec k k') as [->|Hne].
    + now rewrite string_compare_refl in Hc.
    + rewrite map_get_not_in; [lia|]. eapply sorted_tail_absent; [exact Hs|].
      apply key_lt_not_gt. exact Hc.
  - destruct (String.eqb_spec k k') as [->|Hne].
    + now rewrite string_compare_refl in Hc.
    + rewrite IH; [lia|]. unfold sorted_keys in *. simpl in Hs. now inversion Hs.
Qed.

Lemma keys_insert_existing (k : string) (v v0 : FlightBooking) (m : StableBTreeMap) :
  sorted_keys m -> map_get k m = Some v0 -> keys (map_insert k v m) = keys m.
Proof.
  induction m as [|[k' v'] m IH]; simpl; intros Hs Hg; [discriminate|].
  destruct (String.compare k k') eqn:Hc; simpl.
  - apply String.compare_eq_iff in Hc. now subst.
  - destruct (String.eqb_spec k k') as [->|Hne].
    + now rewrite string_compare_refl in Hc.
    + rewrite map_get_not_in in Hg; [discriminate|]. eapply sorted_tail_absent; [exact Hs|].
      apply key_lt_not_gt. exact Hc.
  - destruct (String.eqb_spec k k') as [->|Hne].
    + now rewrite string_compare_refl in Hc.
    + f_equal. apply IH; auto. unfold sorted_keys in *. simpl in Hs. now inversion Hs.
Qed.

Lemma map_len_remove (k : string) (v : FlightBooking) (m : StableBTreeMap) :
  map_get k m = Some v -> S (map_len (snd (map_remove k m))) = map_len m.
Proof.
  unfold map_len. induction m as [|[k' v'] m IH]; simpl; [discriminate|].
  destruct (String.eqb k k'); [reflexivity|]. intros Hg.
  destruct (map_remove k m) as [r m'] eqn:Hr; simpl in *. rewrite <- (IH Hg). reflexivity.
Qed.

Lemma filter_key_absent (k : string) (m : StableBTreeMap) :
  ~ In k (keys m) -> filter (fun e => negb (String.eqb (fst e) k)) m = m.
Proof.
  induction m as [|[k' v'] m IH]; simpl; intros Hn; [reflexivity|].
  destruct (String.eqb_spec k' k); [tauto|]. simpl. f_equal. auto.
Qed.

Lemma map_remove_filter (k : string) (m : StableBTreeMap) :
  sorted_keys m -> snd (map_remove k m) = filter (fun e => negb (String.eqb (fst e) k)) m.
Proof.
  induction m as [|[k' v'] m IH]; simpl; intros Hs; [reflexivity|].
  rewrite (String.eqb_sym k' k).
  destruct (String.eqb_spec k k') as [<-|Hne]; simpl.
  - symmetry. apply filter_key_absent. eapply sorted_tail_absent; [exact Hs|apply key_lt_irrefl].
  - destruct (map_remove k m) as [r m'] eqn:Hr; simpl in *. f_equal. apply IH.
    unfold sorted_keys in *. simpl in Hs. now inversion Hs.
Qed.

Lemma values_filter_key (k : string) (m : StableBTreeMap) :
  well_keyed m ->
  map snd (filter (fun e => negb (String.eqb (fst e) k)) m) =
  filter (fun r => negb (String.eqb (id r) k)) (map snd m).
Proof.
  induction m as [|[k' v'] m IH]; simpl; intros Hw; [reflexivity|].
  rewrite (Hw k' v') by (left; reflexivity).
  assert (Hw' : well_keyed m) by (intros a b H; apply Hw; right; exact H).
  destruct (negb (String.eqb k' k)); simpl; rewrite IH; auto.
Qed.

(** Every record reachable stores hold passed the payload checks. *)
Lemma reachable_valid_records (m : StableBTreeMap) :
  reachable m -> forall k r, In (k, r) m -> valid_record r.
Proof.
  induction 1 as [|now rnds p m _ IH|now i p m _ IH|i m _ IH].
  - intros k r [].
  - unfold addFlightBooking.
    destruct (payload_missing p) eqn:H1; [exact IH|].
    destruct (_ >=? _) eqn:H2; [exact IH|]. simpl.
    assert (Hv : valid_payload p) by (apply valid_payload_checks; auto).
    intros k r Hin. apply in_map_insert in Hin as [Heq|Hin]; [|eauto].
    inversion Heq; subst. exact Hv.
  - unfold updateFlightBooking.
    destruct (payload_missing p) eqn:H1; [exact IH|].
    destruct (_ >=? _) eqn:H2; [exact IH|].
    destruct (map_get i m) as [fb|]; simpl; [|exact IH].
    assert (Hv : valid_payload p) by (apply valid_payload_checks; auto).
    intros k r Hin. apply in_map_insert in Hin as [Heq|Hin]; [|eauto].
    inversion Heq; subst. exact Hv.
  - intros k r Hin. apply (IH k r). pose proof (in_map_remove i (k, r) m) as Hi.
    unfold deleteFlightBooking in Hin.
    destruct (map_remove i m) as [[d|] m']; simpl in *; auto.
Qed.

(** ** Lists *)

Lemma firstn_add_app {A : Type} (a b : nat) (l : list A) :
  firstn (a + b) l = firstn a l ++ firstn b (skipn a l).
Proof.
  revert l. induction a as [|a IH]; intros [|x l]; simpl; auto.
  - now rewrite firstn_nil.
  - now rewrite IH.
Qed.

Lemma Forall2_map_self {A B : Type} (R : A -> B -> Prop) (f : A -> B) (l : list A) :
  (forall x, In x l -> R x (f x)) -> Forall2 R l (map f l).
Proof. induction l as [|x l IH]; simpl; intros H; constructor; auto. Qed.

(** ** Bits of [uuidv4] *)

Lemma Z_range_cases (P : Z -> Prop) (n : nat) :
  (forall a, In a (map Z.of_nat (seq 0 n)) -> P a) -> forall a, 0 <= a < Z.of_nat n -> P a.
Proof.
  intros H a Ha. apply H. apply in_map_iff. exists (Z.to_nat a). split; [lia|].
  apply in_seq. lia.
Qed.

Lemma version_nibble (x : Z) : Z.lor (Z.land x 15) 64 / 16 = 4.
Proof.
  change 15 with (Z.ones 4). rewrite Z.land_ones by lia.
  assert (Hr : 0 <= x mod 2 ^ 4 < Z.of_nat 16) by (simpl; apply Z.mod_pos_bound; lia).
  revert Hr. generalize (x mod 2 ^ 4). apply Z_range_cases.
  intros a Ha. simpl in Ha. repeat destruct Ha as [<-|Ha]; try reflexivity; contradiction.
Qed.

Lemma variant_nibble (x : Z) :
  In (hexDigit (Z.lor (Z.land x 63) 128 / 16)) ["8"; "9"; "a"; "b"]%char.
Proof.
  change 63 with (Z.ones 6). rewrite Z.land_ones by lia.
  assert (Hr : 0 <= x mod 2 ^ 6 < Z.of_nat 64) by (simpl; apply Z.mod_pos_bound; lia).
  revert Hr. generalize (x mod 2 ^ 6). apply Z_range_cases.
  intros a Ha. simpl in Ha. repeat destruct Ha as [<-|Ha]; try (vm_compute; tauto); contradiction.
Qed.

Lemma filter_all_false {A : Type} (f : A -> bool) (l : list A) :
  (forall x, In x l -> f x = false) -> filter f l = [].
Proof.
  induction l as [|x l IH]; simpl; intros H; [reflexivity|].
  rewrite (H x (or_introl eq_refl)). apply IH. auto.
Qed.

Lemma well_keyed_ids (m : StableBTreeMap) :
  well_keyed m -> map id (map_values m) = keys m.
Proof.
  unfold map_values, keys. induction m as [|[k v] m IH]; simpl; intros Hw; [reflexivity|].
  rewrite (Hw k v (or_introl eq_refl)). f_equal. apply IH.
  intros a b H. apply Hw. now right.
Qed.

Lemma ascii_byte_lower (a : ascii) :
  Nat.ltb (nat_of_ascii a) 128 = true ->
  lowerFull (Z.of_nat (nat_of_ascii a)) = [Z.of_nat (nat_of_ascii (asciiLowerChar a))] /\
  Z.of_nat (nat_of_ascii (asciiLowerChar a)) < 0x80 /\
  Z.of_nat (nat_of_ascii a) < 0x80.
Proof. destruct a as [[] [] [] [] [] [] [] []]; vm_compute; intros H; try discriminate H; auto. Qed.

Lemma ascii_decode (s : string) :
  is_ascii_string s = true -> utf8_decode (bytes_of_string s) = Some (bytes_of_string s).
Proof.
  unfold is_ascii_string, bytes_of_string.
  induction s as [|a s IH]; simpl; [reflexivity|]. intros H.
  apply andb_true_iff in H as [Ha Hs].
  destruct (ascii_byte_lower a Ha) as (_ & _ & Hlt).
  apply Z.ltb_lt in Hlt. rewrite Hlt, (IH Hs). reflexivity.
Qed.

Lemma ascii_lower_cps (s : string) (before : list Z) :
  is_ascii_string s = true ->
  flat_map utf8_encode (lower_cps before (bytes_of_string s)) =
  bytes_of_string (asciiLowerCase s).
Proof.
  unfold is_ascii_string, bytes_of_string. revert before.
  induction s as [|a s IH]; intros before; simpl; [reflexivity|]. intros H.
  apply andb_true_iff in H as [Ha Hs].
  destruct (ascii_byte_lower a Ha) as (Hl & Hlo & Hlt).
  assert (Hs' : (Z.of_nat (nat_of_ascii a) =? 0x3A3) = false) by (apply Z.eqb_neq; lia).
  rewrite Hs', Hl, flat_map_app, (IH _ Hs). simpl. unfold utf8_encode at 1.
  apply Z.ltb_lt in Hlo. rewrite Hlo. reflexivity.
Qed.

Lemma string_of_bytes_of_string (s : string) : string_of_bytes (bytes_of_string s) = s.
Proof.
  unfold string_of_bytes, bytes_of_string. induction s as [|a s IH]; simpl; [reflexivity|].
  rewrite Nat2Z.id, ascii_nat_embedding. f_equal. exact IH.
Qed.

(** On ASCII text [toLowerCase] lower-cases exactly [A]-[Z]. *)
Lemma toLowerCase_ascii (s : string) :
  is_ascii_string s = true -> toLowerCase s = asciiLowerCase s.
Proof.
  intros H. unfold toLowerCase. rewrite (ascii_decode s H), (ascii_lower_cps s [] H).
  apply string_of_bytes_of_string.
Qed.

Lemma toLowerCase_empty : toLowerCase EmptyString = EmptyString.
Proof. reflexivity. Qed.

(** *** Lower-casing twice *)

Ltac zbool :=
  repeat (match goal with
          | |- context [utf8_cont ?b] => unfold utf8_cont
          | |- context [?a <? ?b] => destruct (Z.ltb_spec a b)
          | |- context [?a <=? ?b] => destruct (Z.leb_spec a b)
          | |- context [?a =? ?b] => destruct (Z.eqb_spec a b)
          end; cbn [andb negb option_map]; try (exfalso; lia)).

Ltac zhyps :=
  repeat match goal with
         | H : (_ && _)%bool = true |- _ => apply andb_true_iff in H as [? ?]
         | H : negb _ = true |- _ => apply negb_true_iff in H
         | H : (_ <=? _) = true |- _ => apply Z.leb_le in H
         | H : (_ <? _) = true |- _ => apply Z.ltb_lt in H
         end.

Lemma lower_ranges_closed_true : lower_ranges_closed = true.
Proof. vm_compute. reflexivity. Qed.

Lemma lower_delta_cases (rs : list (Z * Z * Z * Z)) (c : Z) :
  lower_delta rs c = 0 \/
  exists lo hi st d, In (lo, hi, st, d) rs /\ lo <= c <= hi /\ (c - lo) mod st = 0 /\
                     lower_delta rs c = d.
Proof.
  induction rs as [|[[[lo hi] st] d] rs IH]; simpl; [now left|].
  destruct ((lo <=? c) && (c <=? hi) && ((c - lo) mod st =? 0))%bool eqn:E.
  - right. apply andb_true_iff in E as [E E3]. apply andb_true_iff in E as [E1 E2].
    apply Z.leb_le in E1. apply Z.leb_le in E2. apply Z.eqb_eq in E3.
    exists lo, hi, st, d. auto.
  - destruct IH as [IH | (lo' & hi' & st' & d' & H & H1 & H2 & H3)]; [now left|].
    right. exists lo', hi', st', d'. auto.
Qed.

Lemma lower_fixed_spec (x : Z) :
  lower_fixed x = true -> valid_scalar x = true /\ x <> 0x3A3 /\ lowerFull x = [x].
Proof.
  unfold lower_fixed, lowerFull. intros H.
  apply andb_true_iff in H as [H Hs]. apply andb_true_iff in H as [H Hc].
  apply andb_true_iff in H as [Hv Hd]. apply negb_true_iff in Hs, Hc.
  apply Z.eqb_eq in Hd. split; [exact Hv|]. split; [now apply Z.eqb_neq|].
  rewrite Hc, Hd, Z.add_0_r. reflexivity.
Qed.

(** The image of a scalar other than U+03A3 is made of code points that
    lower-casing leaves alone. *)
Lemma lowerFull_closed (c : Z) :
  valid_scalar c = true -> c <> 0x3A3 -> Forall (fun x => lower_fixed x = true) (lowerFull c).
Proof.
  intros Hv Hs. unfold lowerFull. destruct (Z.eqb_spec c 0x130) as [->|Hc].
  { repeat constructor. }
  destruct (lower_delta_cases lower_ranges c) as [H0 | (lo & hi & st & d & Hin & Hr & Hm & Hd)].
  - repeat constructor. rewrite H0, Z.add_0_r. unfold lower_fixed. rewrite Hv, H0.
    apply Z.eqb_neq in Hc. apply Z.eqb_neq in Hs. rewrite Hc, Hs. reflexivity.
  - rewrite Hd. repeat constructor.
    pose proof lower_ranges_closed_true as Hok. unfold lower_ranges_closed in Hok.
    rewrite forallb_forall in Hok. specialize (Hok _ Hin). cbv beta iota in Hok.
    apply andb_true_iff in Hok as [Hok Hall]. apply andb_true_iff in Hok as [Hst _].
    apply Z.ltb_lt in Hst. rewrite forallb_forall in Hall.
    assert (Hk : c = lo + st * ((c - lo) / st)).
    { pose proof (Z.div_mod (c - lo) st ltac:(lia)). lia. }
    rewrite Hk. apply Hall. apply in_map_iff. exists (Z.to_nat ((c - lo) / st)).
    split; [apply Z2Nat.id, Z.div_pos; lia|]. apply in_seq. split; [lia|].
    assert ((c - lo) / st <= (hi - lo) / st) by (apply Z.div_le_mono; lia).
    assert (0 <= (c - lo) / st) by (apply Z.div_pos; lia). lia.
Qed.

Lemma lower_cps_closed (cps before : list Z) :
  Forall (fun c => valid_scalar c = true) cps ->
  Forall (fun x => lower_fixed x = true) (lower_cps before cps).
Proof.
  revert before. induction cps as [|c cps IH]; intros before H; simpl; [constructor|].
  inversion H as [|? ? Hc Hcs]; subst. apply Forall_app. split; [|now apply IH].
  destruct (Z.eqb_spec c 0x3A3) as [->|Hne].
  - destruct (final_sigma before cps); repeat constructor.
  - now apply lowerFull_closed.
Qed.

Lemma lower_cps_fixed (l before : list Z) :
  Forall (fun x => lower_fixed x = true) l -> lower_cps before l = l.
Proof.
  revert before. induction l as [|x l IH]; intros before H; simpl; [reflexivity|].
  inversion H as [|? ? Hx Hl]; subst. destruct (lower_fixed_spec x Hx) as (_ & Hs & Hf).
  apply Z.eqb_neq in Hs. rewrite Hs, Hf, (IH _ Hl). reflexivity.
Qed.

Lemma utf8_decode_encode (c : Z) (rest : list Z) :
  valid_scalar c = true ->
  utf8_decode (utf8_encode c ++ rest) = option_map (cons c) (utf8_decode rest).
Proof.
  unfold valid_scalar. intros H. repeat apply andb_true_iff in H as [H ?].
  apply negb_true_iff in H0. apply Z.leb_le in H. apply Z.leb_le in H1.
  assert (E1 : c / 4096 = c / 64 / 64) by (rewrite Z.div_div by lia; reflexivity).
  assert (E2 : c / 262144 = c / 64 / 64 / 64) by (rewrite !Z.div_div by lia; reflexivity).
  unfold utf8_encode. rewrite E1, E2.
  pose proof (Z.div_mod c 64 ltac:(lia)). pose proof (Z.mod_pos_bound c 64 ltac:(lia)).
  pose proof (Z.div_mod (c / 64) 64 ltac:(lia)). pose proof (Z.mod_pos_bound (c / 64) 64 ltac:(lia)).
  pose proof (Z.div_mod (c / 64 / 64) 64 ltac:(lia)).
  pose proof (Z.mod_pos_bound (c / 64 / 64) 64 ltac:(lia)).
  set (q1 := c / 64) in *. set (q2 := q1 / 64) in *. set (q3 := q2 / 64) in *.
  set (r1 := c mod 64) in *. set (r2 := q1 mod 64) in *. set (r3 := q2 mod 64) in *.
  unfold utf8_cont.
  destruct (Z.ltb_spec c 0x80);  cbn [utf8_decode app andb negb option_map utf8_cont].
  { destruct (Z.ltb_spec c 0x80); [reflexivity | lia]. }
  destruct (Z.ltb_spec c 0x800);  cbn [utf8_decode app andb negb option_map utf8_cont].
  { zbool; try lia. f_equal. f_equal. lia. }
  destruct (Z.ltb_spec c 0x10000);  cbn [utf8_decode app andb negb option_map utf8_cont].
  { zbool; try lia; f_equal; f_equal; lia. }
  zbool; try lia; f_equal; f_equal; lia.
Qed.

Lemma utf8_decode_flat_encode (cps : list Z) :
  Forall (fun c => valid_scalar c = true) cps ->
  utf8_decode (flat_map utf8_encode cps) = Some cps.
Proof.
  induction cps as [|c cps IH]; intros H; simpl; [reflexivity|].
  inversion H; subst. rewrite utf8_decode_encode, IH; auto.
Qed.

Lemma utf8_encode_bytes (c : Z) :
  valid_scalar c = true -> Forall (fun b => 0 <= b < 256) (utf8_encode c).
Proof.
  unfold valid_scalar. intros H. repeat apply andb_true_iff in H as [H ?].
  apply Z.leb_le in H. apply Z.leb_le in H1.
  pose proof (Z.mod_pos_bound c 64 ltac:(lia)).
  pose proof (Z.mod_pos_bound (c / 64) 64 ltac:(lia)).
  pose proof (Z.mod_pos_bound (c / 4096) 64 ltac:(lia)).
  assert (0 <= c / 64) by (apply Z.div_pos; lia).
  assert (0 <= c / 4096) by (apply Z.div_pos; lia).
  assert (0 <= c / 262144) by (apply Z.div_pos; lia).
  unfold utf8_encode. zbool;
    apply Forall_forall; intros b Hb; cbn [In] in Hb;
    repeat destruct Hb as [<- | Hb]; try contradiction; try lia;
    match goal with
    | |- context [c / ?k] =>
        assert (k * (c / k) <= c) by (apply Z.mul_div_le; lia); lia
    end.
Qed.

Lemma bytes_of_string_of_bytes (l : list Z) :
  Forall (fun b => 0 <= b < 256) l -> bytes_of_string (string_of_bytes l) = l.
Proof.
  unfold bytes_of_string, string_of_bytes. induction l as [|b l IH]; intros H; simpl; [reflexivity|].
  inversion H as [|? ? Hb Hl]; subst. rewrite list_ascii_of_string_of_list_ascii in IH.
  rewrite list_ascii_of_string_of_list_ascii. simpl.
  rewrite nat_ascii_embedding by lia. rewrite Z2Nat.id by lia. f_equal. now apply IH.
Qed.

Lemma utf8_decode_valid (l cps : list Z) :
  Forall (fun b => 0 <= b) l -> utf8_decode l = Some cps ->
  Forall (fun c => valid_scalar c = true) cps.
Proof.
  intros Hpos Hd. assert (Hn : (length l <= length l)%nat) by lia.
  revert Hn Hpos Hd. generalize (length l) at 2. intros n. revert l cps.
  induction n as [|n IH]; intros l cps Hn Hpos Hd.
  { destruct l; [inversion Hd; constructor | simpl in Hn; lia]. }
  destruct l as [|b0 r]; cbn [utf8_decode] in Hd.
  { inversion Hd. constructor. }
  cbn [length] in Hn. inversion Hpos as [|? ? Hb0 Hr]; subst.
  destruct (Z.ltb_spec b0 0x80).
  { destruct (utf8_decode r) as [cs|] eqn:E; simpl in Hd; [|discriminate].
    inversion Hd; subst. constructor.
    - unfold valid_scalar. zbool; lia.
    - apply (IH r); auto; lia. }
  destruct ((0xC2 <=? b0) && (b0 <=? 0xDF))%bool eqn:E2.
  { destruct r as [|b1 r1]; [discriminate|]. inversion Hr; subst.
    unfold utf8_cont in Hd. destruct ((0x80 <=? b1) && (b1 <=? 0xBF))%bool eqn:E1; [|discriminate].
    destruct (utf8_decode r1) as [cs|] eqn:E; simpl in Hd; [|discriminate].
    inversion Hd; subst. constructor.
    - apply andb_true_iff in E2 as [E2 E2']. apply andb_true_iff in E1 as [E1 E1'].
      apply Z.leb_le in E1, E1', E2, E2'. unfold valid_scalar. zbool; lia.
    - apply (IH r1); auto. cbn [length] in Hn. lia. }
  destruct ((0xE0 <=? b0) && (b0 <=? 0xEF))%bool eqn:E3.
  { destruct r as [|b1 [|b2 r2]]; try discriminate. inversion Hr as [|? ? _ Hr1]; subst.
    inversion Hr1; subst.
    match type of Hd with
    | (if ?g then _ else _) = _ => destruct g eqn:G; [|discriminate]
    end.
    destruct (utf8_decode r2) as [cs|] eqn:E; simpl in Hd; [|discriminate].
    inversion Hd; subst. constructor.
    - unfold utf8_cont in G. zhyps. unfold valid_scalar.
      match goal with H : (_ && _)%bool = false |- _ => rewrite H end.
      zbool; lia.
    - apply (IH r2); auto. cbn [length] in Hn. lia. }
  destruct ((0xF0 <=? b0) && (b0 <=? 0xF4))%bool eqn:E4; [|discriminate].
  destruct r as [|b1 [|b2 [|b3 r3]]]; try discriminate. inversion Hr as [|? ? _ Hr1]; subst.
  inversion Hr1 as [|? ? _ Hr2]; subst. inversion Hr2; subst.
  match type of Hd with
  | (if ?g then _ else _) = _ => destruct g eqn:G; [|discriminate]
  end.
  destruct (utf8_decode r3) as [cs|] eqn:E; simpl in Hd; [|discriminate].
  inversion Hd; subst. constructor.
  - unfold utf8_cont in G. zhyps. unfold valid_scalar. zbool; lia.
  - apply (IH r3); auto. cbn [length] in Hn. lia.
Qed.

Lemma bytes_of_string_nonneg (s : string) : Forall (fun b => 0 <= b) (bytes_of_string s).
Proof. unfold bytes_of_string. apply Forall_forall. intros b Hb. apply in_map_iff in Hb as (a & <- & _). lia. Qed.

Lemma flat_map_encode_bytes (cps : list Z) :
  Forall (fun c => valid_scalar c = true) cps ->
  Forall (fun b => 0 <= b < 256) (flat_map utf8_encode cps).
Proof.
  induction cps as [|c cps IH]; intros H; simpl; [constructor|].
  inversion H; subst. apply Forall_app. split; [now apply utf8_encode_bytes | now apply IH].
Qed.

Lemma toLowerCase_idem (s : string) : toLowerCase (toLowerCase s) = toLowerCase s.
Proof.
  unfold toLowerCase at 2 3. destruct (utf8_decode (bytes_of_string s)) as [cps|] eqn:Hd.
  - pose proof (utf8_decode_valid _ _ (bytes_of_string_nonneg s) Hd) as Hv.
    pose proof (lower_cps_closed cps [] Hv) as Hc.
    assert (Hv' : Forall (fun c => valid_scalar c = true) (lower_cps [] cps)).
    { eapply Forall_impl; [|exact Hc]. intros x Hx. now apply lower_fixed_spec. }
    unfold toLowerCase. rewrite bytes_of_string_of_bytes by now apply flat_map_encode_bytes.
    rewrite utf8_decode_flat_encode by exact Hv'. rewrite (lower_cps_fixed _ [] Hc). reflexivity.
  - unfold toLowerCase. rewrite Hd. reflexivity.
Qed.

(** ** Claims *)

(** C1: for a payload passing validation, [addFlightBooking] returns [Ok]
    with a record carrying the payload's five fields verbatim, a non-empty
    [id], [createdAt] the current time and no [updatedAt]; a following
    [getFlightBooking] on that [id] returns the same record. *)
Theorem addFlightBooking_then_get (now : nat64) (rnds : list Z)
  (p : FlightBookingPayload) (m : StableBTreeMap) :
  valid_payload p ->
  exists fb,
    fst (addFlightBooking now rnds p m) = Ok fb /\
    airline fb = Payload.airline p /\
    departureAirport fb = Payload.departureAirport p /\
    arrivalAirport fb = Payload.arrivalAirport p /\
    departureTime fb = Payload.departureTime p /\
    arrivalTime fb = Payload.arrivalTime p /\
    id fb <> EmptyString /\
    createdAt fb = now /\
    updatedAt fb = None /\
    getFlightBooking (id fb) (snd (addFlightBooking now rnds p m)) = Ok fb.
Proof.
  intros Hv. apply valid_payload_checks in Hv as [H1 H2].
  unfold addFlightBooking. rewrite H1, H2.
  eexists. simpl. repeat split; try reflexivity.
  - apply uuidv4_nonempty.
  - unfold getFlightBooking. now rewrite map_get_insert_same.
Qed.

Lemma addFlightBooking_then_get_witness :
  valid_payload sample_payload /\
  exists fb,
    fst (addFlightBooking 5 (repeat 0 32) sample_payload []) = Ok fb /\
    airline fb = Payload.airline sample_payload /\
    departureAirport fb = Payload.departureAirport sample_payload /\
    arrivalAirport fb = Payload.arrivalAirport sample_payload /\
    departureTime fb = Payload.departureTime sample_payload /\
    arrivalTime fb = Payload.arrivalTime sample_payload /\
    id fb <> EmptyString /\
    createdAt fb = 5 /\
    updatedAt fb = None /\
    getFlightBooking (id fb) (snd (addFlightBooking 5 (repeat 0 32) sample_payload [])) = Ok fb.
Proof.
  assert (Hv : valid_payload sample_payload)
    by (unfold valid_payload; simpl; repeat split; try discriminate; lia).
  split; [exact Hv|]. apply (addFlightBooking_then_get 5 (repeat 0 32) sample_payload []).
  exact Hv.
Defined.

(** C2: on a reachable store, for an [id] present and a valid payload,
    [updateFlightBooking] returns [Ok] with a record keeping the stored
    [id] and [createdAt], taking the payload's five fields and [updatedAt]
    the current time; the map entry of that [id] is overwritten with it. *)
Theorem updateFlightBooking_existing (now : nat64) (i : string)
  (p : FlightBookingPayload) (m : StableBTreeMap) (fb : FlightBooking) :
  reachable m -> map_get i m = Some fb -> valid_payload p ->
  exists u,
    fst (updateFlightBooking now i p m) = Ok u /\
    id u = id fb /\ id u = i /\
    createdAt u = createdAt fb /\
    airline u = Payload.airline p /\
    departureAirport u = Payload.departureAirport p /\
    arrivalAirport u = Payload.arrivalAirport p /\
    departureTime u = Payload.departureTime p /\
    arrivalTime u = Payload.arrivalTime p /\
    updatedAt u = Some now /\
    snd (updateFlightBooking now i p m) = map_insert i u m /\
    map_get i (snd (updateFlightBooking now i p m)) = Some u.
Proof.
  intros Hr Hg Hv.
  destruct (reachable_inv m Hr) as [_ Hw].
  assert (Hid : id fb = i) by (apply (Hw i fb), map_get_in, Hg).
  apply valid_payload_checks in Hv as [H1 H2].
  unfold updateFlightBooking. rewrite H1, H2, Hg. simpl.
  eexists. repeat split; simpl; try reflexivity; try exact Hid.
  - now rewrite Hid.
  - rewrite Hid. apply map_get_insert_same.
Qed.

Lemma updateFlightBooking_existing_witness :
  reachable store1 /\ map_get store1_id store1 = Some (mkFlightBooking store1_id
     "Delta" "JFK" "LAX" 100 200 5 None) /\ valid_payload sample_payload /\
  exists u,
    fst (updateFlightBooking 9 store1_id sample_payload store1) = Ok u /\
    id u = store1_id /\ id u = store1_id /\
    createdAt u = 5 /\
    airline u = Payload.airline sample_payload /\
    departureAirport u = Payload.departureAirport sample_payload /\
    arrivalAirport u = Payload.arrivalAirport sample_payload /\
    departureTime u = Payload.departureTime sample_payload /\
    arrivalTime u = Payload.arrivalTime sample_payload /\
    updatedAt u = Some 9 /\
    snd (updateFlightBooking 9 store1_id sample_payload store1) = map_insert store1_id u store1 /\
    map_get store1_id (snd (updateFlightBooking 9 store1_id sample_payload store1)) = Some u.
Proof.
  assert (Hv : valid_payload sample_payload)
    by (unfold valid_payload; simpl; repeat split; try discriminate; lia).
  assert (Hg : map_get store1_id store1 = Some (mkFlightBooking store1_id
     "Delta" "JFK" "LAX" 100 200 5 None)) by reflexivity.
  split; [exact store1_reachable|]. split; [exact Hg|]. split; [exact Hv|].
  exact (updateFlightBooking_existing 9 store1_id sample_payload store1 _
           store1_reachable Hg Hv).
Defined.

(** C7: both [addFlightBooking] and [updateFlightBooking] check in order,
    the first failure winning: a missing (empty or zero) field gives the
    invalid-input error even when the time range is also bad; otherwise
    [departureTime >= arrivalTime] gives the time-range error; a payload
    passing both checks gets past them. *)
Theorem validation_first_failure_wins (now : nat64) (rnds : list Z) (i : string)
  (p : FlightBookingPayload) (m : StableBTreeMap) :
  (field_missing p ->
     fst (addFlightBooking now rnds p m) = Err invalidInputMsg /\
     fst (updateFlightBooking now i p m) = Err invalidInputMsg) /\
  (~ field_missing p -> Payload.arrivalTime p <= Payload.departureTime p ->
     fst (addFlightBooking now rnds p m) = Err invalidTimeRangeMsg /\
     fst (updateFlightBooking now i p m) = Err invalidTimeRangeMsg) /\
  (~ field_missing p -> Payload.departureTime p < Payload.arrivalTime p ->
     (exists fb, fst (addFlightBooking now rnds p m) = Ok fb) /\
     fst (updateFlightBooking now i p m) <> Err invalidInputMsg /\
     fst (updateFlightBooking now i p m) <> Err invalidTimeRangeMsg).
Proof.
  unfold addFlightBooking, updateFlightBooking.
  split; [|split].
  - intros Hm. apply payload_missing_spec in Hm. rewrite Hm. auto.
  - intros Hm Ht. rewrite <- payload_missing_spec, not_true_iff_false in Hm.
    rewrite Hm. replace (_ >=? _) with true by (symmetry; apply Z.geb_le; lia). auto.
  - intros Hm Ht. rewrite <- payload_missing_spec, not_true_iff_false in Hm.
    rewrite Hm. replace (_ >=? _) with false
      by (symmetry; rewrite Z.geb_leb; apply Z.leb_gt; lia).
    split; [eexists; reflexivity|].
    destruct (map_get i m); simpl; split; discriminate.
Qed.

(** C8: on a reachable store, for an [id] present, [deleteFlightBooking]
    returns [Ok] with the removed record; afterwards [getFlightBooking id]
    is the not-found error and every other key is unaffected. *)
Theorem deleteFlightBooking_existing (i : string) (fb : FlightBooking) (m : StableBTreeMap) :
  reachable m -> map_get i m = Some fb ->
  fst (deleteFlightBooking i m) = Ok fb /\
  getFlightBooking i (snd (deleteFlightBooking i m)) = Err (notFoundGetMsg i) /\
  (forall k, k <> i -> map_get k (snd (deleteFlightBooking i m)) = map_get k m).
Proof.
  intros Hr Hg. destruct (reachable_inv m Hr) as [Hs _].
  pose proof (map_remove_fst i m) as Hf. pose proof (map_remove_gone i m Hs) as Hgone.
  pose proof (fun k => map_get_remove_other i k m) as Hoth.
  unfold deleteFlightBooking, getFlightBooking.
  destruct (map_remove i m) as [r m'] eqn:Hrm; simpl in *. rewrite Hg in Hf. subst r.
  simpl. rewrite Hgone. auto.
Qed.

Lemma deleteFlightBooking_existing_witness :
  reachable store1 /\ map_get store1_id store1 = Some (mkFlightBooking store1_id
     "Delta" "JFK" "LAX" 100 200 5 None) /\
  fst (deleteFlightBooking store1_id store1) =
    Ok (mkFlightBooking store1_id "Delta" "JFK" "LAX" 100 200 5 None) /\
  getFlightBooking store1_id (snd (deleteFlightBooking store1_id store1)) =
    Err (notFoundGetMsg store1_id) /\
  (forall k, k <> store1_id ->
     map_get k (snd (deleteFlightBooking store1_id store1)) = map_get k store1).
Proof.
  assert (Hg : map_get store1_id store1 = Some (mkFlightBooking store1_id
     "Delta" "JFK" "LAX" 100 200 5 None)) by reflexivity.
  split; [exact store1_reachable|]. split; [exact Hg|].
  exact (deleteFlightBooking_existing store1_id _ store1 store1_reachable Hg).
Defined.

(** C9: for an [id] absent from the store, [getFlightBooking],
    [updateFlightBooking] (valid payload) and [deleteFlightBooking] return
    a not-found error naming [id] and leave the store as it was; a payload
    failing validation makes [addFlightBooking] and [updateFlightBooking]
    return an error without touching the map. *)
Theorem unknown_id_and_invalid_payload (now : nat64) (rnds : list Z) (i : string)
  (p : FlightBookingPayload) (m : StableBTreeMap) :
  (map_get i m = None ->
     getFlightBooking i m = Err (notFoundGetMsg i) /\ names_id (notFoundGetMsg i) i /\
     (valid_payload p ->
        updateFlightBooking now i p m = (Err (notFoundUpdateMsg i), m) /\
        names_id (notFoundUpdateMsg i) i) /\
     deleteFlightBooking i m = (Err (notFoundDeleteMsg i), m) /\
     names_id (notFoundDeleteMsg i) i) /\
  (~ valid_payload p ->
     (exists e, addFlightBooking now rnds p m = (Err e, m)) /\
     (exists e, updateFlightBooking now i p m = (Err e, m))).
Proof.
  split.
  - intros Hn. unfold getFlightBooking, deleteFlightBooking. rewrite Hn.
    pose proof (map_remove_fst i m) as Hf. pose proof (map_remove_absent i m Hn) as Ha.
    destruct (map_remove i m) as [r m'] eqn:Hrm; simpl in *. rewrite Hn in Hf. subst.
    split; [reflexivity|]. split; [apply names_id_intro|].
    split; [|split; [reflexivity | apply names_id_intro]].
    intros Hv. apply valid_payload_checks in Hv as [H1 H2].
    unfold updateFlightBooking. rewrite H1, H2, Hn. split; [reflexivity | apply names_id_intro].
  - intros Hv. unfold addFlightBooking, updateFlightBooking.
    destruct (invalid_payload_checks p Hv) as [H1|[H1 H2]]; rewrite H1; [|rewrite H2];
      split; eexists; reflexivity.
Qed.

(** C10: in every reachable store each entry's record has its key as [id]. *)
Theorem reachable_id_is_key (m : StableBTreeMap) :
  reachable m -> forall k r, In (k, r) m -> id r = k.
Proof. intros Hr. apply (reachable_inv m Hr). Qed.

Lemma reachable_id_is_key_witness :
  reachable store2 /\ forall k r, In (k, r) store2 -> id r = k.
Proof. split; [exact store2_reachable | exact (reachable_id_is_key store2 store2_reachable)]. Defined.

(** C3 (as it holds): [getFlightBookingsPaginated] never errors: it returns
    the JS slice from [startIndex = (page - 1) * pageSize] to
    [startIndex + pageSize]; that list is empty when [startIndex] is at or
    beyond the number of records, when [page = 0], or when [pageSize = 0].
    Other non-positive arguments go through JS negative-index slicing. *)
Theorem paginated_never_errors (page pageSize : Z) (m : StableBTreeMap) :
  getFlightBookingsPaginated page pageSize m =
    Ok (js_slice (map_values m) ((page - 1) * pageSize) ((page - 1) * pageSize + pageSize)) /\
  ((Z.of_nat (map_len m) <= (page - 1) * pageSize \/ page = 0 \/ pageSize = 0) ->
   getFlightBookingsPaginated page pageSize m = Ok []).
Proof.
  split; [reflexivity|]. intros H. unfold getFlightBookingsPaginated. f_equal.
  apply js_slice_empty. unfold map_values. rewrite length_map. unfold map_len in H.
  destruct H as [H | [ -> | -> ]]; [left; exact H | right; right; ring | right; left; ring].
Qed.

(** C3 fails as stated: [page = 1], [pageSize = -1] on a two-record store
    is [slice(0, -1)], the first record, not an empty list. *)
Lemma paginated_nonpositive_counterexample :
  ~ (forall page pageSize m, (page <= 0 \/ pageSize <= 0) ->
       getFlightBookingsPaginated page pageSize m = Ok []).
Proof.
  intros H. assert (Hc : 1 <= 0 \/ -1 <= 0) by lia.
  specialize (H 1 (-1) store2 Hc).
  vm_compute in H. discriminate H.
Qed.

(** C4: for positive [page] and [pageSize] the result is the slice of the
    key-ordered values from [(page - 1) * pageSize], [pageSize] long,
    clipped to the available length; on five records k1 < ... < k5, pages
    (1, 2), (3, 2) and (10, 2) are [k1; k2], [k5] and empty. *)
Theorem paginated_positive_slice :
  (forall page pageSize m, 1 <= page -> 1 <= pageSize ->
     getFlightBookingsPaginated page pageSize m =
       Ok (firstn (Z.to_nat pageSize) (skipn (Z.to_nat ((page - 1) * pageSize)) (map_values m)))) /\
  map_values store5 = [b1; b2; b3; b4; b5] /\
  getFlightBookingsPaginated 1 2 store5 = Ok [b1; b2] /\
  getFlightBookingsPaginated 3 2 store5 = Ok [b5] /\
  getFlightBookingsPaginated 10 2 store5 = Ok [].
Proof.
  split.
  - intros page pageSize m Hp Hs. unfold getFlightBookingsPaginated. f_equal.
    apply js_slice_nonneg; nia.
  - repeat split; vm_compute; reflexivity.
Qed.

(** C5 (corrected): [searchFlightBookings keyword] returns [Ok] with, in
    key order, exactly the records whose [toLowerCase(airline)] contains
    [toLowerCase(keyword)] (no other field is looked at); the empty keyword
    returns every record; when the keyword and every stored airline are
    ASCII text this is exactly matching up to letter case.  Outside ASCII
    it is not: see [search_final_sigma_counterexample]. *)
Theorem searchFlightBookings_spec (keyword : string) (m : StableBTreeMap) :
  (exists l, searchFlightBookings keyword m = Ok l /\
     FilterRel (fun r => includes (toLowerCase (airline r)) (toLowerCase keyword) = true)
       (map_values m) l /\
     (forall r, In r l <-> In r (map_values m) /\
                includes (toLowerCase (airline r)) (toLowerCase keyword) = true)) /\
  searchFlightBookings EmptyString m = Ok (map_values m) /\
  (is_ascii_string keyword = true ->
   forallb (fun r => is_ascii_string (airline r)) (map_values m) = true ->
   exists l, searchFlightBookings keyword m = Ok l /\
     FilterRel (fun r => ci_substring keyword (airline r)) (map_values m) l /\
     (forall r, In r l <-> In r (map_values m) /\ ci_substring keyword (airline r))).
Proof.
  split; [|split].
  - eexists. split; [reflexivity|]. split.
    + apply filter_FilterRel. intros r. reflexivity.
    + intros r. apply filter_In.
  - unfold searchFlightBookings. f_equal. apply forallb_filter_id.
    apply forallb_forall. intros r _. rewrite toLowerCase_empty. apply includes_empty.
  - intros Hk Ha. rewrite forallb_forall in Ha.
    assert (He : filter (fun r => includes (toLowerCase (airline r)) (toLowerCase keyword))
                   (map_values m) =
                 filter (fun r => includes (asciiLowerCase (airline r)) (asciiLowerCase keyword))
                   (map_values m)).
    { apply filter_ext_in. intros r Hr.
      now rewrite (toLowerCase_ascii _ (Ha r Hr)), (toLowerCase_ascii _ Hk). }
    exists (filter (fun r => includes (asciiLowerCase (airline r)) (asciiLowerCase keyword))
              (map_values m)).
    split; [unfold searchFlightBookings; now rewrite He|]. split.
    + apply filter_FilterRel. intros r. apply ascii_match_spec.
    + intros r. rewrite filter_In, ascii_match_spec. reflexivity.
Qed.

(** C5, counterexample: a store holding one booking with airline "ΑΣ"
    (U+0391 U+03A3), reachable by one [addFlightBooking], in which the
    keyword "Σ" occurs literally in that airline; yet
    [searchFlightBookings "Σ"] returns no record, because the airline
    lower-cases to "ας" (final sigma) and the keyword to "σ". *)
Lemma search_final_sigma_counterexample :
  reachable store_sigma /\
  (exists r pre post, In r (map_values store_sigma) /\
     airline r = (pre ++ keyword_sigma ++ post)%string) /\
  searchFlightBookings keyword_sigma store_sigma = Ok [].
Proof.
  split; [apply reach_add, reach_init|]. split.
  - eexists; exists (utf8_text [0x391]), ""%string. split; [vm_compute; left; reflexivity|].
    vm_compute. reflexivity.
  - vm_compute. reflexivity.
Qed.

(** C6: [getFlightBookingsByTimeRange startTime endTime] returns, in key
    order, exactly the records with [departureTime >= startTime] and
    [arrivalTime <= endTime]; a record only overlapping the range is left
    out. *)
Theorem byTimeRange_spec (startTime endTime : nat64) (m : StableBTreeMap) :
  exists l, getFlightBookingsByTimeRange startTime endTime m = Ok l /\
    FilterRel (contained_in startTime endTime) (map_values m) l /\
    (forall r, In r l <-> In r (map_values m) /\ contained_in startTime endTime r).
Proof.
  assert (Hb : forall r, ((startTime <=? departureTime r) && (arrivalTime r <=? endTime))%bool = true
                         <-> contained_in startTime endTime r).
  { intros r. unfold contained_in. rewrite andb_true_iff, !Z.leb_le. reflexivity. }
  eexists. split; [reflexivity|]. split.
  - apply filter_FilterRel, Hb.
  - intros r. rewrite filter_In, Hb. reflexivity.
Qed.

(** The scenarios of the spec on the sample store. *)
Example search_delta :
  searchFlightBookings "delta" store5 = Ok [b1; b3] /\
  searchFlightBookings "AA" store5 = Ok [b4] /\
  countFlightBookings store5 = Ok 5.
Proof. repeat split; vm_compute; reflexivity. Qed.

Example byTimeRange_overlap :
  getFlightBookingsByTimeRange 10 45 store5 = Ok [b1; b2].
Proof. vm_compute. reflexivity. Qed.

(** ** Further properties of the canister *)

(** Every record a reachable store lists passed the payload checks: its
    three strings are non-empty, its times non-zero, and it departs before
    it arrives. *)
Theorem listed_records_valid (m : StableBTreeMap) :
  reachable m -> forall r, In r (map_values m) -> valid_record r.
Proof.
  intros Hr r Hin. unfold map_values in Hin. apply in_map_iff in Hin as [[k r'] [Hs Hin]].
  simpl in Hs. subst r'. exact (reachable_valid_records m Hr k r Hin).
Qed.

Lemma listed_records_valid_witness :
  reachable store2 /\ forall r, In r (map_values store2) -> valid_record r.
Proof. split; [exact store2_reachable | exact (listed_records_valid store2 store2_reachable)]. Defined.

(** On a reachable store a time range with [endTime <= startTime] selects
    nothing, since every stored booking departs before it arrives. *)
Theorem byTimeRange_inverted_empty (startTime endTime : nat64) (m : StableBTreeMap) :
  reachable m -> endTime <= startTime ->
  getFlightBookingsByTimeRange startTime endTime m = Ok [].
Proof.
  intros Hr Hle. unfold getFlightBookingsByTimeRange. f_equal.
  apply filter_all_false. intros r Hin.
  pose proof (listed_records_valid m Hr r Hin) as (_ & _ & _ & _ & _ & Hlt).
  destruct (Z.leb_spec startTime (departureTime r)); simpl; [|reflexivity].
  apply Z.leb_gt. lia.
Qed.

Lemma byTimeRange_inverted_empty_witness :
  reachable store2 /\ 50 <= 100 /\ getFlightBookingsByTimeRange 100 50 store2 = Ok [].
Proof.
  split; [exact store2_reachable|]. split; [lia|].
  apply byTimeRange_inverted_empty; [exact store2_reachable | lia].
Defined.

(** On a reachable store [getFlightBookings] lists exactly the records
    [getFlightBooking] finds under their own [id], in strictly increasing
    [id] order (so no [id] is listed twice). *)
Theorem listing_matches_get (m : StableBTreeMap) :
  reachable m ->
  getFlightBookings m = Ok (map_values m) /\
  (forall r, In r (map_values m) <-> getFlightBooking (id r) m = Ok r) /\
  StronglySorted key_lt (map id (map_values m)).
Proof.
  intros Hr. destruct (reachable_inv m Hr) as [Hs Hw].
  split; [reflexivity|]. split.
  - intros r. unfold getFlightBooking, map_values. split.
    + intros Hin. apply in_map_iff in Hin as [[k r'] [Heq Hin]]. simpl in Heq. subst r'.
      rewrite (Hw k r Hin). now rewrite (sorted_in_get k r m Hs Hin).
    + destruct (map_get (id r) m) eqn:Hg; [|discriminate]. intros Hok. inversion Hok; subst.
      apply map_get_in in Hg. apply in_map_iff. exists (id r, r). auto.
  - rewrite well_keyed_ids by exact Hw. exact Hs.
Qed.

Lemma listing_matches_get_witness :
  reachable store2 /\
  getFlightBookings store2 = Ok (map_values store2) /\
  (forall r, In r (map_values store2) <-> getFlightBooking (id r) store2 = Ok r) /\
  StronglySorted key_lt (map id (map_values store2)).
Proof. split; [exact store2_reachable | exact (listing_matches_get store2 store2_reachable)]. Defined.

(** A successful [addFlightBooking] on a reachable store raises the count
    by one when the generated [id] is new and leaves it unchanged when the
    [id] is already stored (that record is then overwritten); no other
    key's record changes. *)
Theorem add_count_and_frame (now : nat64) (rnds : list Z) (p : FlightBookingPayload)
  (m : StableBTreeMap) (fb : FlightBooking) :
  reachable m -> fst (addFlightBooking now rnds p m) = Ok fb ->
  countFlightBookings (snd (addFlightBooking now rnds p m)) =
    Ok (Z.of_nat (map_len m) + match map_get (id fb) m with Some _ => 0 | None => 1 end) /\
  (forall k, k <> id fb -> map_get k (snd (addFlightBooking now rnds p m)) = map_get k m).
Proof.
  intros Hr. destruct (reachable_inv m Hr) as [Hs _].
  unfold addFlightBooking.
  destruct (payload_missing p); [discriminate|]. destruct (_ >=? _); [discriminate|].
  simpl. intros Hok. inversion Hok as [Hfb]. split.
  - unfold countFlightBookings. rewrite map_len_insert by exact Hs. f_equal.
    destruct (map_get _ m); lia.
  - intros k Hk. apply map_get_insert_other. exact Hk.
Qed.

Lemma add_count_and_frame_witness :
  reachable store1 /\
  fst (addFlightBooking 7 (repeat 17 32) sample_payload store1) = Ok store2_new /\
  countFlightBookings (snd (addFlightBooking 7 (repeat 17 32) sample_payload store1)) =
    Ok (Z.of_nat (map_len store1) +
        match map_get (id store2_new) store1 with Some _ => 0 | None => 1 end) /\
  (forall k, k <> id store2_new ->
     map_get k (snd (addFlightBooking 7 (repeat 17 32) sample_payload store1)) = map_get k store1).
Proof.
  assert (Hok : fst (addFlightBooking 7 (repeat 17 32) sample_payload store1) = Ok store2_new)
    by reflexivity.
  split; [exact store1_reachable|]. split; [exact Hok|].
  exact (add_count_and_frame 7 (repeat 17 32) sample_payload store1 store2_new
           store1_reachable Hok).
Defined.

(** A successful [deleteFlightBooking] lowers the count by one. *)
Theorem delete_count (i : string) (d : FlightBooking) (m : StableBTreeMap) :
  fst (deleteFlightBooking i m) = Ok d ->
  countFlightBookings (snd (deleteFlightBooking i m)) = Ok (Z.of_nat (map_len m) - 1).
Proof.
  unfold deleteFlightBooking. pose proof (map_remove_fst i m) as Hf.
  pose proof (map_len_remove i) as Hl.
  destruct (map_remove i m) as [[d'|] m'] eqn:Hr; simpl in *; [|discriminate].
  intros Hok. inversion Hok; subst. specialize (Hl d m (eq_sym Hf)). rewrite Hr in Hl.
  simpl in Hl. unfold countFlightBookings. f_equal. lia.
Qed.

Lemma delete_count_witness :
  fst (deleteFlightBooking store1_id store2) =
    Ok (mkFlightBooking store1_id "Delta" "JFK" "LAX" 100 200 5 None) /\
  countFlightBookings (snd (deleteFlightBooking store1_id store2)) =
    Ok (Z.of_nat (map_len store2) - 1).
Proof.
  assert (Hok : fst (deleteFlightBooking store1_id store2) =
    Ok (mkFlightBooking store1_id "Delta" "JFK" "LAX" 100 200 5 None)) by reflexivity.
  split; [exact Hok | exact (delete_count _ _ _ Hok)].
Defined.

(** On a reachable store [updateFlightBooking], whatever its outcome,
    keeps the set of keys and so the count, and leaves the records of all
    other keys as they were. *)
Theorem update_keeps_keys (now : nat64) (i : string) (p : FlightBookingPayload)
  (m : StableBTreeMap) :
  reachable m ->
  keys (snd (updateFlightBooking now i p m)) = keys m /\
  countFlightBookings (snd (updateFlightBooking now i p m)) = countFlightBookings m /\
  (forall k, k <> i -> map_get k (snd (updateFlightBooking now i p m)) = map_get k m).
Proof.
  intros Hr. destruct (reachable_inv m Hr) as [Hs Hw].
  assert (Hk : keys (snd (updateFlightBooking now i p m)) = keys m /\
               (forall k, k <> i -> map_get k (snd (updateFlightBooking now i p m)) = map_get k m)).
  { unfold updateFlightBooking.
    destruct (payload_missing p); [simpl; auto|]. destruct (_ >=? _); [simpl; auto|].
    destruct (map_get i m) as [fb|] eqn:Hg; simpl; [|auto].
    assert (Hid : id fb = i) by (apply (Hw i fb), map_get_in, Hg). rewrite Hid.
    split; [eapply keys_insert_existing; eauto | intros k Hne; apply map_get_insert_other; auto]. }
  destruct Hk as [Hk Ho]. split; [exact Hk|]. split; [|exact Ho].
  unfold countFlightBookings, map_len. f_equal. f_equal.
  rewrite <- (length_map fst (snd (updateFlightBooking now i p m))), <- (length_map fst m).
  unfold keys in Hk. now rewrite Hk.
Qed.

Lemma update_keeps_keys_witness :
  reachable store2 /\
  keys (snd (updateFlightBooking 9 store1_id sample_payload store2)) = keys store2 /\
  countFlightBookings (snd (updateFlightBooking 9 store1_id sample_payload store2)) =
    countFlightBookings store2 /\
  (forall k, k <> store1_id ->
     map_get k (snd (updateFlightBooking 9 store1_id sample_payload store2)) = map_get k store2).
Proof.
  split; [exact store2_reachable|].
  exact (update_keeps_keys 9 store1_id sample_payload store2 store2_reachable).
Defined.

(** On a reachable store, after [deleteFlightBooking i] (found or not) the
    listing is the old listing without the record whose [id] is [i]. *)
Theorem delete_listing (i : string) (m : StableBTreeMap) :
  reachable m ->
  getFlightBookings (snd (deleteFlightBooking i m)) =
    Ok (filter (fun r => negb (String.eqb (id r) i)) (map_values m)).
Proof.
  intros Hr. destruct (reachable_inv m Hr) as [Hs Hw].
  assert (Hd : snd (deleteFlightBooking i m) = snd (map_remove i m))
    by (unfold deleteFlightBooking; destruct (map_remove i m) as [[d|] m']; reflexivity).
  unfold getFlightBookings. rewrite Hd, map_remove_filter by exact Hs.
  unfold map_values. now rewrite values_filter_key.
Qed.

Lemma delete_listing_witness :
  reachable store2 /\
  getFlightBookings (snd (deleteFlightBooking store1_id store2)) =
    Ok (filter (fun r => negb (String.eqb (id r) store1_id)) (map_values store2)).
Proof. split; [exact store2_reachable | exact (delete_listing store1_id store2 store2_reachable)]. Defined.

(** Paging through [getFlightBookingsPaginated] with a positive
    [pageSize], pages 1 to [n] with [n * pageSize] at least the number of
    records, gives back the whole listing of [getFlightBookings], each
    record once and in order. *)
Theorem paging_covers_listing (pageSize : Z) (n : nat) (m : StableBTreeMap) :
  1 <= pageSize -> Z.of_nat (map_len m) <= Z.of_nat n * pageSize ->
  exists pages,
    Forall2 (fun p l => getFlightBookingsPaginated (Z.of_nat p) pageSize m = Ok l)
            (seq 1 n) pages /\
    getFlightBookings m = Ok (concat pages).
Proof.
  intros Hps Hlen.
  set (vals := map_values m).
  set (f := fun p : nat =>
         firstn (Z.to_nat pageSize) (skipn (Z.to_nat ((Z.of_nat p - 1) * pageSize)) vals)).
  exists (map f (seq 1 n)). split.
  - apply Forall2_map_self. intros p Hp. apply in_seq in Hp.
    unfold getFlightBookingsPaginated, f. f_equal. apply js_slice_nonneg; nia.
  - assert (Hc : forall k, concat (map f (seq 1 k)) = firstn (k * Z.to_nat pageSize) vals).
    { induction k as [|k IH]; [reflexivity|].
      rewrite seq_S, map_app, concat_app, IH. simpl. rewrite app_nil_r.
      unfold f. replace (Z.to_nat ((Z.of_nat (S k) - 1) * pageSize))
        with (k * Z.to_nat pageSize)%nat by nia.
      rewrite <- firstn_add_app. f_equal. lia. }
    unfold getFlightBookings. rewrite Hc, firstn_all2; [reflexivity|].
    unfold vals, map_values. rewrite length_map. unfold map_len in Hlen. nia.
Qed.

Lemma paging_covers_listing_witness :
  1 <= 2 /\ Z.of_nat (map_len store5) <= Z.of_nat 3 * 2 /\
  exists pages,
    Forall2 (fun p l => getFlightBookingsPaginated (Z.of_nat p) 2 store5 = Ok l)
            (seq 1 3) pages /\
    getFlightBookings store5 = Ok (concat pages).
Proof.
  assert (H1 : 1 <= 2) by lia.
  assert (H2 : Z.of_nat (map_len store5) <= Z.of_nat 3 * 2) by (vm_compute; discriminate).
  split; [exact H1|]. split; [exact H2|]. exact (paging_covers_listing 2 3 store5 H1 H2).
Defined.

(** The identifiers [uuidv4()] builds from the 32 bytes of the
    [getRandomValues] workaround have the UUID version 4 layout: 36
    characters, dashes at positions 8, 13, 18 and 23, the version digit
    [4] at position 14 and a variant digit [8], [9], [a] or [b] at 19. *)
Theorem uuidv4_format (rnds : list Z) :
  length rnds = 32%nat ->
  String.length (uuidv4 rnds) = 36%nat /\
  String.get 8 (uuidv4 rnds) = Some "-"%char /\
  String.get 13 (uuidv4 rnds) = Some "-"%char /\
  String.get 18 (uuidv4 rnds) = Some "-"%char /\
  String.get 23 (uuidv4 rnds) = Some "-"%char /\
  String.get 14 (uuidv4 rnds) = Some "4"%char /\
  (exists c, String.get 19 (uuidv4 rnds) = Some c /\ In c ["8"; "9"; "a"; "b"]%char).
Proof.
  intros Hl.
  do 32 (destruct rnds as [|? rnds]; [discriminate|]).
  destruct rnds; [|discriminate].
  unfold uuidv4, unsafeStringify, hexOf, byteToHex.
  cbn [list_set nth fold_right String.append String.length String.get].
  repeat split; try reflexivity.
  - rewrite version_nibble. reflexivity.
  - eexists. split; [reflexivity|]. apply variant_nibble.
Qed.

Lemma uuidv4_format_witness :
  length (repeat 0 32) = 32%nat /\
  String.length (uuidv4 (repeat 0 32)) = 36%nat /\
  String.get 8 (uuidv4 (repeat 0 32)) = Some "-"%char /\
  String.get 13 (uuidv4 (repeat 0 32)) = Some "-"%char /\
  String.get 18 (uuidv4 (repeat 0 32)) = Some "-"%char /\
  String.get 23 (uuidv4 (repeat 0 32)) = Some "-"%char /\
  String.get 14 (uuidv4 (repeat 0 32)) = Some "4"%char /\
  (exists c, String.get 19 (uuidv4 (repeat 0 32)) = Some c /\ In c ["8"; "9"; "a"; "b"]%char).
Proof.
  assert (H : length (repeat 0 32) = 32%nat) by reflexivity.
  split; [exact H | exact (uuidv4_format _ H)].
Defined.


(** Lower-casing the keyword first does not change what
    [searchFlightBookings] returns: [toLowerCase] is idempotent. *)
Theorem search_lowercased_keyword (keyword : string) (m : StableBTreeMap) :
  searchFlightBookings (toLowerCase keyword) m = searchFlightBookings keyword m.
Proof. unfold searchFlightBookings. now rewrite toLowerCase_idem. Qed.
